(** * Player controller of the platformer (assets/js/platformer2/Player.js)

    A shallow embedding of the [Player] class: key latching, animation
    selection, the per-frame movement step, the collision reactor and the
    timers it starts, followed by the properties of the controller.

    Conventions of the embedding.
    - JavaScript numbers are idealised as exact rationals [Q]: the
      rounding of binary64 arithmetic is not modelled. The properties are
      therefore stated on what does not depend on rounding: which branch
      a comparison selects, and which expression an assignment stores,
      as a Leibniz equality with the very expression of the code
      ([y - bottom * (2 # 5)] for [this.y -= (this.bottom * .40)]). No
      property is stated on sums, ratios or cancellations of stored
      values, which binary64 honours only up to rounding (the section on
      rounding evaluates instances over primitive floats); [==] ([Qeq])
      appears only in counterexamples, where a concrete run whose
      values are exact in binary64 too is evaluated.
    - [GameEnv] is the shared environment; it lives next to the player in
      one [World], together with the pending [setTimeout] callbacks, the
      suspended [await] continuations and a trace of the calls made to the
      audio and level-transition collaborators.
    - A property read on [undefined] raises a [TypeError]; the mutations
      made before the raise stay in the world, as in JavaScript.
    - JavaScript objects used as dictionaries ([playerData], [pressedKeys])
      are [gmap string _]; an own property whose value is [undefined] is a
      key bound to [None]. *)

From Stdlib Require Import Floats.PrimFloat.
From Stdlib Require Import QArith Qabs Lqa.
From stdpp Require Import base option list gmap strings.

Local Open Scope Q_scope.
Local Open Scope string_scope.

#[local] Set Warnings "-inexact-float".

(** ** Data model *)

(** [animation.idleFrame]: [{column, frames}]. *)
Record IdleFrame := mkIdleFrame {
  column : Q;
  idle_frames : Q
}.

(** One entry of the animation-descriptor table: [{row, frames, idleFrame?}]. *)
Record Animation := mkAnimation {
  row : Q;
  frames : Q;
  idleFrame : option IdleFrame
}.

(** [this.movement = {up, down, left, right}]. *)
Record Movement := mkMovement {
  up : bool;
  down : bool;
  left : bool;
  right : bool
}.

(** [canvas.style.transform] as written by the death animation:
    [rotate(<rotate>deg) translate(<translate>px, 0%)]. *)
Record DeathSpin := mkDeathSpin {
  rotate : Q;
  translate : Q
}.

(** The part of [this.canvas] the controller touches. [style_transform] is
    [None] until the controller writes it. *)
Record Canvas := mkCanvas {
  height : Q;
  style_transform : option DeathSpin;
  style_filter : string
}.

(** [collisionData.touchPoints.other]: [{id, left, right, top, bottom, x}]. *)
Record OtherTouch := mkOtherTouch {
  other_id : string;
  other_left : bool;
  other_right : bool;
  other_top : bool;
  other_bottom : bool;
  other_x : Q
}.

(** [collisionData.touchPoints.this]: the faces of the player itself. *)
Record ThisTouch := mkThisTouch {
  this_top : bool;
  this_bottom : bool;
  this_left : bool;
  this_right : bool
}.

Record TouchPoints := mkTouchPoints {
  other : OtherTouch;
  this : ThisTouch
}.

(** What [super(canvas, image, data, ...)] hands to the constructor: the
    fields owned by [Character] / [GameObject] that the controller reads or
    writes. *)
Record Character := mkCharacter {
  c_x : Q;
  c_y : Q;
  c_bottom : Q;
  c_speed : Q;
  c_gravityEnabled : bool;
  c_frameX : Q;
  c_frameY : Q;
  c_minFrame : Q;
  c_maxFrame : Q;
  c_canvas : Canvas;
  c_collisionData : TouchPoints
}.

(** The player object. The first block of fields is inherited, the second
    is set by the constructor of [Player]. *)
Record Player := mkPlayer {
  x : Q;
  y : Q;
  bottom : Q;
  speed : Q;
  gravityEnabled : bool;
  frameX : Q;
  frameY : Q;
  minFrame : Q;
  maxFrame : Q;
  canvas : Canvas;
  collisionData : TouchPoints;

  playerData : gmap string (option Animation);
  moveSpeed : Q;
  pressedKeys : gmap string (option Animation);
  movement : Movement;
  isIdle : bool;
  directionKey : string;
  transitionHide : bool;
  shouldBeSynced : bool;
  isDying : bool;
  name : string
}.

(** Levels are objects compared by identity. *)
Definition Level := nat.

(** The fields of the shared [GameEnv] used by the controller.
    [player] tells whether [GameEnv.player] refers to this player. *)
Record GameEnv := mkGameEnv {
  invincible : bool;
  player : bool;
  userID : string;
  playerX : Q;
  playerY : Q;
  innerWidth : Q;
  difficulty : string;
  backgroundHillsSpeed : Q;
  backgroundMountainsSpeed : Q;
  env_transitionHide : bool;
  levels : list Level;
  currentLevel : Level
}.

(** Callbacks handed to [setTimeout]. *)
Inductive Task :=
| TubeGravityOn      (* outer callback of the tube sequence *)
| TubeExit           (* inner callback of the tube sequence *)
| RestartLevel.      (* the async callback of the death sequence *)

Record Timer := mkTimer {
  delay : nat;
  task : Task
}.

(** Calls made to collaborators, in order. *)
Inductive Effect :=
| PlayJump
| PlayPlayerDeath
| TransitionToLevel (target : option Level).

(** The whole mutable world. [awaiting] counts the death callbacks
    suspended on [await GameControl.transitionToLevel(...)]; [listening]
    tells whether the two key listeners are registered on the document. *)
Record World := mkWorld {
  me : Player;
  env : GameEnv;
  timers : list Timer;
  awaiting : nat;
  trace : list Effect;
  listening : bool
}.

#[global] Instance Task_eq_dec : EqDecision Task.
Proof. solve_decision. Defined.

(** ** Field updates *)

Definition with_me (f : Player → Player) (w : World) : World :=
  mkWorld (f (me w)) (env w) (timers w) (awaiting w) (trace w) (listening w).

Definition with_env (f : GameEnv → GameEnv) (w : World) : World :=
  mkWorld (me w) (f (env w)) (timers w) (awaiting w) (trace w) (listening w).

Definition setTimeout (t : Task) (ms : nat) (w : World) : World :=
  mkWorld (me w) (env w) (timers w ++ [mkTimer ms t]) (awaiting w) (trace w)
          (listening w).

Definition emit (e : Effect) (w : World) : World :=
  mkWorld (me w) (env w) (timers w) (awaiting w) (trace w ++ [e]) (listening w).

Definition set_x (v : Q) (p : Player) : Player :=
  mkPlayer v (y p) (bottom p) (speed p) (gravityEnabled p) (frameX p) (frameY p)
    (minFrame p) (maxFrame p) (canvas p) (collisionData p) (playerData p)
    (moveSpeed p) (pressedKeys p) (movement p) (isIdle p) (directionKey p)
    (transitionHide p) (shouldBeSynced p) (isDying p) (name p).

Definition set_y (v : Q) (p : Player) : Player :=
  mkPlayer (x p) v (bottom p) (speed p) (gravityEnabled p) (frameX p) (frameY p)
    (minFrame p) (maxFrame p) (canvas p) (collisionData p) (playerData p)
    (moveSpeed p) (pressedKeys p) (movement p) (isIdle p) (directionKey p)
    (transitionHide p) (shouldBeSynced p) (isDying p) (name p).

Definition set_gravityEnabled (v : bool) (p : Player) : Player :=
  mkPlayer (x p) (y p) (bottom p) (speed p) v (frameX p) (frameY p)
    (minFrame p) (maxFrame p) (canvas p) (collisionData p) (playerData p)
    (moveSpeed p) (pressedKeys p) (movement p) (isIdle p) (directionKey p)
    (transitionHide p) (shouldBeSynced p) (isDying p) (name p).

Definition set_frameX (v : Q) (p : Player) : Player :=
  mkPlayer (x p) (y p) (bottom p) (speed p) (gravityEnabled p) v (frameY p)
    (minFrame p) (maxFrame p) (canvas p) (collisionData p) (playerData p)
    (moveSpeed p) (pressedKeys p) (movement p) (isIdle p) (directionKey p)
    (transitionHide p) (shouldBeSynced p) (isDying p) (name p).

Definition set_frameY (v : Q) (p : Player) : Player :=
  mkPlayer (x p) (y p) (bottom p) (speed p) (gravityEnabled p) (frameX p) v
    (minFrame p) (maxFrame p) (canvas p) (collisionData p) (playerData p)
    (moveSpeed p) (pressedKeys p) (movement p) (isIdle p) (directionKey p)
    (transitionHide p) (shouldBeSynced p) (isDying p) (name p).

Definition set_minFrame (v : Q) (p : Player) : Player :=
  mkPlayer (x p) (y p) (bottom p) (speed p) (gravityEnabled p) (frameX p)
    (frameY p) v (maxFrame p) (canvas p) (collisionData p) (playerData p)
    (moveSpeed p) (pressedKeys p) (movement p) (isIdle p) (directionKey p)
    (transitionHide p) (shouldBeSynced p) (isDying p) (name p).

Definition set_maxFrame (v : Q) (p : Player) : Player :=
  mkPlayer (x p) (y p) (bottom p) (speed p) (gravityEnabled p) (frameX p)
    (frameY p) (minFrame p) v (canvas p) (collisionData p) (playerData p)
    (moveSpeed p) (pressedKeys p) (movement p) (isIdle p) (directionKey p)
    (transitionHide p) (shouldBeSynced p) (isDying p) (name p).

Definition set_canvas (v : Canvas) (p : Player) : Player :=
  mkPlayer (x p) (y p) (bottom p) (speed p) (gravityEnabled p) (frameX p)
    (frameY p) (minFrame p) (maxFrame p) v (collisionData p) (playerData p)
    (moveSpeed p) (pressedKeys p) (movement p) (isIdle p) (directionKey p)
    (transitionHide p) (shouldBeSynced p) (isDying p) (name p).

Definition set_collisionData (v : TouchPoints) (p : Player) : Player :=
  mkPlayer (x p) (y p) (bottom p) (speed p) (gravityEnabled p) (frameX p)
    (frameY p) (minFrame p) (maxFrame p) (canvas p) v (playerData p)
    (moveSpeed p) (pressedKeys p) (movement p) (isIdle p) (directionKey p)
    (transitionHide p) (shouldBeSynced p) (isDying p) (name p).

Definition set_playerData (v : gmap string (option Animation)) (p : Player)
  : Player :=
  mkPlayer (x p) (y p) (bottom p) (speed p) (gravityEnabled p) (frameX p)
    (frameY p) (minFrame p) (maxFrame p) (canvas p) (collisionData p) v
    (moveSpeed p) (pressedKeys p) (movement p) (isIdle p) (directionKey p)
    (transitionHide p) (shouldBeSynced p) (isDying p) (name p).

Definition set_pressedKeys (v : gmap string (option Animation)) (p : Player)
  : Player :=
  mkPlayer (x p) (y p) (bottom p) (speed p) (gravityEnabled p) (frameX p)
    (frameY p) (minFrame p) (maxFrame p) (canvas p) (collisionData p)
    (playerData p) (moveSpeed p) v (movement p) (isIdle p) (directionKey p)
    (transitionHide p) (shouldBeSynced p) (isDying p) (name p).

Definition set_movement (v : Movement) (p : Player) : Player :=
  mkPlayer (x p) (y p) (bottom p) (speed p) (gravityEnabled p) (frameX p)
    (frameY p) (minFrame p) (maxFrame p) (canvas p) (collisionData p)
    (playerData p) (moveSpeed p) (pressedKeys p) v (isIdle p) (directionKey p)
    (transitionHide p) (shouldBeSynced p) (isDying p) (name p).

Definition set_isIdle (v : bool) (p : Player) : Player :=
  mkPlayer (x p) (y p) (bottom p) (speed p) (gravityEnabled p) (frameX p)
    (frameY p) (minFrame p) (maxFrame p) (canvas p) (collisionData p)
    (playerData p) (moveSpeed p) (pressedKeys p) (movement p) v (directionKey p)
    (transitionHide p) (shouldBeSynced p) (isDying p) (name p).

Definition set_directionKey (v : string) (p : Player) : Player :=
  mkPlayer (x p) (y p) (bottom p) (speed p) (gravityEnabled p) (frameX p)
    (frameY p) (minFrame p) (maxFrame p) (canvas p) (collisionData p)
    (playerData p) (moveSpeed p) (pressedKeys p) (movement p) (isIdle p) v
    (transitionHide p) (shouldBeSynced p) (isDying p) (name p).

Definition set_isDying (v : bool) (p : Player) : Player :=
  mkPlayer (x p) (y p) (bottom p) (speed p) (gravityEnabled p) (frameX p)
    (frameY p) (minFrame p) (maxFrame p) (canvas p) (collisionData p)
    (playerData p) (moveSpeed p) (pressedKeys p) (movement p) (isIdle p)
    (directionKey p) (transitionHide p) (shouldBeSynced p) v (name p).

Definition set_up (v : bool) (m : Movement) : Movement :=
  mkMovement v (down m) (left m) (right m).
Definition set_down (v : bool) (m : Movement) : Movement :=
  mkMovement (up m) v (left m) (right m).
Definition set_left (v : bool) (m : Movement) : Movement :=
  mkMovement (up m) (down m) v (right m).
Definition set_right (v : bool) (m : Movement) : Movement :=
  mkMovement (up m) (down m) (left m) v.

Definition set_style_transform (v : option DeathSpin) (c : Canvas) : Canvas :=
  mkCanvas (height c) v (style_filter c).
Definition set_style_filter (v : string) (c : Canvas) : Canvas :=
  mkCanvas (height c) (style_transform c) v.

Definition set_invincible (v : bool) (e : GameEnv) : GameEnv :=
  mkGameEnv v (player e) (userID e) (playerX e) (playerY e) (innerWidth e)
    (difficulty e) (backgroundHillsSpeed e) (backgroundMountainsSpeed e)
    (env_transitionHide e) (levels e) (currentLevel e).

Definition set_player (v : bool) (e : GameEnv) : GameEnv :=
  mkGameEnv (invincible e) v (userID e) (playerX e) (playerY e) (innerWidth e)
    (difficulty e) (backgroundHillsSpeed e) (backgroundMountainsSpeed e)
    (env_transitionHide e) (levels e) (currentLevel e).

Definition set_PlayerPosition (vx vy : Q) (e : GameEnv) : GameEnv :=
  mkGameEnv (invincible e) (player e) (userID e) vx vy (innerWidth e)
    (difficulty e) (backgroundHillsSpeed e) (backgroundMountainsSpeed e)
    (env_transitionHide e) (levels e) (currentLevel e).

Definition set_backgroundSpeeds (hills mountains : Q) (e : GameEnv) : GameEnv :=
  mkGameEnv (invincible e) (player e) (userID e) (playerX e) (playerY e)
    (innerWidth e) (difficulty e) hills mountains
    (env_transitionHide e) (levels e) (currentLevel e).

Definition set_env_transitionHide (v : bool) (e : GameEnv) : GameEnv :=
  mkGameEnv (invincible e) (player e) (userID e) (playerX e) (playerY e)
    (innerWidth e) (difficulty e) (backgroundHillsSpeed e)
    (backgroundMountainsSpeed e) v (levels e) (currentLevel e).

Definition set_difficulty (v : string) (e : GameEnv) : GameEnv :=
  mkGameEnv (invincible e) (player e) (userID e) (playerX e) (playerY e)
    (innerWidth e) v (backgroundHillsSpeed e)
    (backgroundMountainsSpeed e) (env_transitionHide e) (levels e)
    (currentLevel e).

(** ** Methods that may raise *)

(** The completion of a method body: a value, or an uncaught [TypeError]. *)
Inductive Completion (A : Type) :=
| Normal (a : A)
| TypeError.
Arguments Normal {A} a.
Arguments TypeError {A}.

(** A method runs on the world and leaves a world behind in both cases. *)
Definition Js (A : Type) : Type := World → Completion A * World.

Definition ret {A} (a : A) : Js A := fun w => (Normal a, w).
Definition throw {A} : Js A := fun w => (TypeError, w).
Definition bind {A B} (m : Js A) (k : A → Js B) : Js B := fun w =>
  match m w with
  | (Normal a, w1) => k a w1
  | (TypeError, w1) => (TypeError, w1)
  end.
Definition act (f : World → World) : Js unit := fun w => (Normal tt, f w).
Definition read {A} (f : World → A) : Js A := fun w => (Normal (f w), w).
Definition when (b : bool) (m : Js unit) : Js unit := if b then m else ret tt.

Declare Scope js_scope.
Delimit Scope js_scope with js.
Notation "v <- m ;; k" := (bind m (fun v => k))
  (at level 100, m at next level, right associativity) : js_scope.
Notation "m ;; k" := (bind m (fun _ => k))
  (at level 100, right associativity) : js_scope.
Local Open Scope js_scope.

(** The world a method leaves behind, whether it returned or raised. *)
Definition exec {A} (m : Js A) (w : World) : World := snd (m w).
Definition completion {A} (m : Js A) (w : World) : Completion A := fst (m w).

(** ** Numbers and dictionaries *)

Definition Qleb (a b : Q) : bool := Qle_bool a b.
Definition Qltb (a b : Q) : bool := negb (Qle_bool b a).

(** [obj[key]]: [undefined] for a missing key and for a key bound to
    [undefined]. *)
Definition js_get {V} (key : string) (obj : gmap string (option V)) : option V :=
  match obj !! key with
  | Some v => v
  | None => None
  end.

(** [key in obj] and [obj.hasOwnProperty(key)] on a plain dictionary. The
    properties inherited from [Object.prototype], which [in] also sees,
    are not key names and are left out. *)
Definition js_has {V} (key : string) (obj : gmap string (option V)) : bool :=
  match obj !! key with
  | Some _ => true
  | None => false
  end.

(** ** Helper methods *)

Definition isFaceLeft (p : Player) : bool := String.eqb (directionKey p) "a".
Definition isKeyActionLeft (key : string) : bool := String.eqb key "a".
Definition isFaceRight (p : Player) : bool := String.eqb (directionKey p) "d".
Definition isKeyActionRight (key : string) : bool := String.eqb key "d".
Definition isKeyActionDash (key : string) : bool := String.eqb key "s".

Definition isActiveAnimation (key : string) (p : Player) : bool :=
  js_has key (pressedKeys p) && negb (isIdle p).

(** Modelled from the spec: the frame-selection setters ([setFrameY],
    [setMaxFrame], [setFrameX], [setMinFrame]) belong to the base object,
    which is not part of the sources; they store their argument in the
    field they are named after. *)
Definition setFrameY (v : Q) : World → World := with_me (set_frameY v).
Definition setMaxFrame (v : Q) : World → World := with_me (set_maxFrame v).
Definition setFrameX (v : Q) : World → World := with_me (set_frameX v).
Definition setMinFrame (v : Q) : World → World := with_me (set_minFrame v).

(** [setAnimation(key)]. The descriptor is fetched first; the direction is
    updated next; reading [animation.row] raises when there is no
    descriptor. *)
Definition setAnimation (key : string) : Js unit :=
  animation <- read (fun w => js_get key (playerData (me w))) ;;
  act (fun w =>
    if isKeyActionLeft key then
      with_me (fun p => set_playerData
                 (<["w" := js_get "wa" (playerData p)]> (playerData p))
                 (set_directionKey key p)) w
    else if isKeyActionRight key then
      with_me (fun p => set_playerData
                 (<["w" := js_get "wd" (playerData p)]> (playerData p))
                 (set_directionKey key p)) w
    else w) ;;
  match animation with
  | None => throw
  | Some a =>
      act (setFrameY (row a)) ;;
      act (setMaxFrame (frames a)) ;;
      idle <- read (fun w => isIdle (me w)) ;;
      match idle, idleFrame a with
      | true, Some f =>
          act (setFrameX (column f)) ;;
          act (setMinFrame (idle_frames f))
      | _, _ => ret tt
      end
  end.

(** [isActiveGravityAnimation(key)]. *)
Definition grounded (p : Player) : bool :=
  Qleb (bottom p) (y p) || negb (down (movement p)).

Definition isActiveGravityAnimation (key : string) : Js bool :=
  result <- read (fun w => isActiveAnimation key (me w) && grounded (me w)) ;;
  g <- read (fun w => grounded (me w)) ;;
  when g (dk <- read (fun w => directionKey (me w)) ;; setAnimation dk) ;;
  ret result.

(** ** The per-frame step: [update()] *)

(** [GameEnv.PlayerPosition.playerX = this.x], and the same for [y]. *)
Definition publishPosition (w : World) : World :=
  with_env (set_PlayerPosition (x (me w)) (y (me w))) w.

(** [this.isActiveAnimation("s") ? this.moveSpeed : this.speed]. *)
Definition lateralSpeed (p : Player) : Q :=
  if isActiveAnimation "s" p then moveSpeed p else speed p.

(** The two lateral rules, left first, each reading the state the previous
    one left. *)
Definition moveLeft (w : World) : World :=
  if isActiveAnimation "a" (me w) then
    if left (movement (me w))
    then with_me (fun p => set_x (x p - lateralSpeed p) p) w
    else w
  else w.

Definition moveRight (w : World) : World :=
  if isActiveAnimation "d" (me w) then
    if right (movement (me w))
    then with_me (fun p => set_x (x p + lateralSpeed p) p) w
    else w
  else w.

Definition moveLateral (w : World) : World := moveRight (moveLeft w).

(** The fraction of [bottom] taken off [y] by a jump under gravity. *)
Definition jumpFraction (difficulty : string) : Q :=
  if String.eqb difficulty "easy" then 1 # 2
  else if String.eqb difficulty "normal" then 2 # 5
  else 3 # 10.

(** The body of [if (this.isActiveGravityAnimation("w")) { ... }] after the
    jump sound. *)
Definition jumpImpulse (w : World) : World :=
  if gravityEnabled (me w) then
    with_me (fun p => set_y (y p - bottom p * jumpFraction (difficulty (env w))) p) w
  else if negb (down (movement (me w))) then
    with_me (fun p => set_y (y p - bottom p * (3 # 20)) p) w
  else w.

Definition jump : Js unit :=
  fired <- isActiveGravityAnimation "w" ;;
  when fired (act (emit PlayJump) ;; act jumpImpulse).

(** [let tubeX = .80 * GameEnv.innerWidth]. *)
Definition tubeX (e : GameEnv) : Q := (4 # 5) * innerWidth e.

Definition tubeClamp (w : World) : World :=
  if Qleb (tubeX (env w)) (x (me w)) && Qleb (x (me w)) (innerWidth (env w))
  then with_me (set_x (tubeX (env w) - 1)) w
  else w.

Definition leftClamp (w : World) : World :=
  if Qltb (x (me w)) 0
  then with_env (set_backgroundSpeeds 0 0) (with_me (set_x 1) w)
  else w.

(** [update()] up to the jump: the position is published, the lateral
    rules run, then the jump check. *)
Definition moveAndJump : Js unit :=
  act publishPosition ;;
  act moveLateral ;;
  jump.

(** Everything [update()] does before [super.update()]: the moves above,
    then the two clamps. *)
Definition update_body : Js unit :=
  moveAndJump ;;
  act tubeClamp ;;
  act leftClamp.

(** [update()]; the generic update of the base object is not part of the
    sources and is taken as a parameter. *)
Definition update (super_update : Js unit) : Js unit :=
  update_body ;; super_update.

(** ** The assignments in binary64 *)

(** JavaScript evaluates the arithmetic of the assignments above in
    binary64. These are the same expressions over primitive floats, a
    decimal literal denoting the nearest binary64 number as it does in
    JavaScript; they serve to evaluate what rounding does to them. *)

(** [this.moveSpeed = this.speed * 3]. *)
Definition moveSpeed64 (speed : float) : float := (speed * 3)%float.

(** [this.x -= v] and [this.x += v]. *)
Definition movedLeft64 (x v : float) : float := (x - v)%float.
Definition movedRight64 (x v : float) : float := (x + v)%float.

(** [this.y -= (this.bottom * fraction)]. *)
Definition jumped64 (y bottom fraction : float) : float :=
  (y - bottom * fraction)%float.

(** ** Life cycle *)

(** The constructor, run on the object [super(...)] has initialised. The
    timers, suspended callbacks and calls recorded in the world are those
    of this player, so a new player starts with none. *)
Definition constructor (c : Character) (data : gmap string (option Animation))
    (e : GameEnv) : World :=
  let e1 := set_invincible false e in
  let p :=
    mkPlayer (c_x c) (c_y c) (c_bottom c) (c_speed c) (c_gravityEnabled c)
      (c_frameX c) (c_frameY c) (c_minFrame c) (c_maxFrame c) (c_canvas c)
      (c_collisionData c)
      data (c_speed c * 3) ∅ (mkMovement true true true true) true "d"
      false true false (userID e1) in
  mkWorld p (set_player true e1) [] 0 [] true.

(** [destroy()]; the destroy of the base object is a parameter. *)
Definition destroy (super_destroy : Js unit) : Js unit :=
  act (fun w => mkWorld (me w) (env w) (timers w) (awaiting w) (trace w) false) ;;
  super_destroy.

(** ** The collision reactor: [collisionAction()] *)

Definition touch (w : World) : TouchPoints := collisionData (me w).

(** The [else] of the first block: lateral movement is permitted again. *)
Definition permitLateral (w : World) : World :=
  with_me (fun p => set_movement (set_right true (set_left true (movement p))) p) w.

(** First block: the tube. *)
Definition tubeReaction (w : World) : World :=
  let o := other (touch w) in
  if String.eqb (other_id o) "tube" then
    let w1 := if other_left o
              then with_me (fun p => set_movement (set_right false (movement p)) p) w
              else w in
    let w2 := if other_right o
              then with_me (fun p => set_movement (set_left false (movement p)) p) w1
              else w1 in
    if other_bottom o then
      setTimeout TubeGravityOn 1000
        (with_me (fun p => set_gravityEnabled false (set_x (other_x o) p)) w2)
    else w2
  else permitLateral w.

(** [["goomba", "flyingGoomba"].includes(id)]. *)
Definition isEnemy (id : string) : bool :=
  String.eqb id "goomba" || String.eqb id "flyingGoomba".

(** [this.collisionData.touchPoints.other.left ? -1 : 1]. *)
Definition direction (o : OtherTouch) : Q := if other_left o then -1 else 1.

(** The expression [GameEnv.invincible = true] used as a condition: it
    stores [true] and has the stored value as its value. *)
Definition assignInvincible (v : bool) : Js bool :=
  act (with_env (set_invincible v)) ;; ret v.

(** The body of the lethal branch. *)
Definition deathSequence (w : World) : World :=
  let d := direction (other (touch w)) in
  let rotate := 90 * d in
  let translate := height (canvas (me w)) * (1 # 2) * d in
  let w1 := with_me (fun p =>
              set_canvas (set_style_transform (Some (mkDeathSpin rotate translate))
                            (canvas p)) p) w in
  let w2 := emit PlayPlayerDeath w1 in
  if negb (isDying (me w2)) then
    setTimeout RestartLevel 700 (with_me (set_isDying true) w2)
  else w2.

(** Second block: goombas. *)
Definition enemyReaction : Js unit :=
  id <- read (fun w => other_id (other (touch w))) ;;
  when (isEnemy id) (
    easy <- read (fun w => String.eqb (difficulty (env w)) "easy") ;;
    if easy then
      act (fun w => with_me (fun p => set_x (x p + 10 * direction (other (touch w))) p) w)
    else
      c <- assignInvincible true ;;
      when c (act deathSequence)).

(** The [else if] of the third block: falling off the edge of a jump
    platform. *)
Definition fallOffEdge (w : World) : World :=
  if negb (down (movement (me w))) then
    with_me (fun p => set_gravityEnabled true
                        (set_movement (set_down true (movement p)) p)) w
  else w.

(** Third block: the jump platform. *)
Definition platformReaction : Js unit :=
  o <- read (fun w => other (touch w)) ;;
  t <- read (fun w => this (touch w)) ;;
  if String.eqb (other_id o) "jumpPlatform" then
    when (other_left o)
      (act (with_me (fun p => set_gravityEnabled true
                                (set_movement (set_right false (movement p)) p)))) ;;
    when (other_right o)
      (act (with_me (fun p => set_gravityEnabled true
                                (set_movement (set_left false (movement p)) p)))) ;;
    when (this_top t)
      (act (with_me (fun p => set_gravityEnabled false
                                (set_movement (set_down false (movement p)) p))) ;;
       dk <- read (fun w => directionKey (me w)) ;;
       setAnimation dk)
  else act fallOffEdge.

Definition collisionAction : Js unit :=
  act tubeReaction ;;
  enemyReaction ;;
  platformReaction.

(** The collision collaborator stores the touch points on the player and
    then calls [collisionAction()]. *)
Definition collide (tp : TouchPoints) : Js unit :=
  act (with_me (set_collisionData tp)) ;;
  collisionAction.

(** ** Key handlers *)

Definition handleKeyDown (key : string) : Js unit :=
  known <- read (fun w => js_has key (playerData (me w))) ;;
  when known (
    latched <- read (fun w => js_has key (pressedKeys (me w))) ;;
    when (negb latched) (
      act (with_me (fun p =>
             set_pressedKeys (<[key := js_get key (playerData p)]> (pressedKeys p)) p)) ;;
      setAnimation key ;;
      act (with_me (set_isIdle false)) ;;
      act (with_env (set_env_transitionHide true))) ;;
    when (isKeyActionDash key)
      (act (with_me (fun p => set_canvas (set_style_filter "invert(1)" (canvas p)) p))) ;;
    px <- read (fun w => x (me w)) ;;
    if isKeyActionLeft key && Qltb 2 px then
      act (with_env (set_backgroundSpeeds (-2 # 5) (-1 # 10)))
    else if isKeyActionRight key then
      act (with_env (set_backgroundSpeeds (2 # 5) (1 # 10)))
    else ret tt).

Definition handleKeyUp (key : string) : Js unit :=
  known <- read (fun w => js_has key (playerData (me w))) ;;
  when known (
    latched <- read (fun w => js_has key (pressedKeys (me w))) ;;
    when latched
      (act (with_me (fun p => set_pressedKeys (delete key (pressedKeys p)) p))) ;;
    setAnimation key ;;
    act (with_me (set_isIdle true)) ;;
    when (isKeyActionDash key)
      (act (with_me (fun p => set_canvas (set_style_filter "invert(0)" (canvas p)) p))) ;;
    when (isKeyActionLeft key || isKeyActionRight key || isKeyActionDash key)
      (act (with_env (set_backgroundSpeeds 0 0)))).

(** ** Timers and the await *)

(** [levels.indexOf(v)]; [None] stands for [-1]. *)
Fixpoint indexOf (l : list Level) (v : Level) : option nat :=
  match l with
  | [] => None
  | h :: t => if Nat.eqb h v then Some 0%nat
              else match indexOf t v with
                   | Some i => Some (S i)
                   | None => None
                   end
  end.

(** [GameEnv.levels[GameEnv.levels.indexOf(GameEnv.currentLevel)]];
    [levels[-1]] is [undefined]. *)
Definition restartTarget (e : GameEnv) : option Level :=
  match indexOf (levels e) (currentLevel e) with
  | Some i => levels e !! i
  | None => None
  end.

(** What a timer callback does when it runs. The death callback calls the
    level transition and suspends on its result. *)
Definition runTask (t : Task) (w : World) : World :=
  match t with
  | TubeGravityOn =>
      setTimeout TubeExit 1000 (with_me (set_gravityEnabled true) w)
  | TubeExit =>
      with_me (set_x (innerWidth (env w) + 1)) w
  | RestartLevel =>
      let w1 := emit (TransitionToLevel (restartTarget (env w))) w in
      mkWorld (me w1) (env w1) (timers w1) (S (awaiting w1)) (trace w1)
              (listening w1)
  end.

(** The [i]-th pending timer fires: it leaves the queue and its callback
    runs. Any pending timer may be the next one. *)
Definition fireTimer (i : nat) (w : World) : World :=
  match timers w !! i with
  | Some t =>
      runTask (task t)
        (mkWorld (me w) (env w) (take i (timers w) ++ drop (S i) (timers w))
                 (awaiting w) (trace w) (listening w))
  | None => w
  end.

(** The awaited level transition completes: a suspended death callback
    resumes and runs [this.isDying = false]. *)
Definition resumeDeath (w : World) : World :=
  match awaiting w with
  | O => w
  | S n =>
      with_me (set_isDying false)
        (mkWorld (me w) (env w) (timers w) n (trace w) (listening w))
  end.

(** ** The host loop *)

Inductive Event :=
| KeyDown (key : string)
| KeyUp (key : string)
| Frame
| Collision (tp : TouchPoints)
| TimerFires (i : nat)
| TransitionCompletes.

(** One turn of the host loop. An uncaught [TypeError] ends the turn and
    leaves the world as the method left it. Key events reach the handlers
    while the listeners are registered. A frame runs the player's part of
    [update()]; what the generic update does to the player arrives as the
    other events. *)
Definition step (w : World) (e : Event) : World :=
  match e with
  | KeyDown key => if listening w then exec (handleKeyDown key) w else w
  | KeyUp key => if listening w then exec (handleKeyUp key) w else w
  | Frame => exec update_body w
  | Collision tp => exec (collide tp) w
  | TimerFires i => fireTimer i w
  | TransitionCompletes => resumeDeath w
  end.

Definition run (w : World) (evs : list Event) : World := foldl step w evs.

(** The number of pending callbacks of a kind. *)
Definition pending (t : Task) (w : World) : nat :=
  length (List.filter (fun tm => bool_decide (task tm = t)) (timers w)).

(** ** A concrete level, for running the model *)

Definition walk (r : Q) : option Animation :=
  Some (mkAnimation r 15 (Some (mkIdleFrame 7 0))).
Definition act_ (r : Q) : option Animation := Some (mkAnimation r 15 None).

(** A descriptor table in the shape the levels use: the four action keys
    and the two facing variants of the jump. *)
Definition sampleData : gmap string (option Animation) :=
  <["a" := walk 1]> (<["d" := walk 2]> (<["s" := act_ 3]> (<["w" := act_ 10]>
  (<["wa" := act_ 11]> (<["wd" := act_ 10]> ∅))))).

Definition noTouch : TouchPoints :=
  mkTouchPoints (mkOtherTouch "" false false false false 0)
                (mkThisTouch false false false false).

Definition sampleCharacter (px py pbottom pspeed : Q) : Character :=
  mkCharacter px py pbottom pspeed true 0 0 0 0 (mkCanvas 100 None "") noTouch.

Definition sampleEnv (width : Q) (diff : string) : GameEnv :=
  mkGameEnv true false "guest" 0 0 width diff 0 0 false [0%nat; 1%nat] 1%nat.

(** A player standing on the ground at [(px, 300)], [bottom = 300],
    [speed = 1], on a screen [width] wide. *)
Definition start (px width : Q) (diff : string) : World :=
  constructor (sampleCharacter px 300 300 1) sampleData (sampleEnv width diff).

(** A contact with a body [id], by the faces given. *)
Definition contact (id : string) (oleft oright obottom ttop : bool) : TouchPoints :=
  mkTouchPoints (mkOtherTouch id oleft oright false obottom 0)
                (mkThisTouch ttop false false false).

(** ** Vocabulary of the properties *)

(** A projection of the world is kept by a method when the world the
    method leaves behind, returning or raising, projects as before. *)
Definition kept {A B} (π : World → A) (m : Js B) : Prop :=
  ∀ w, π (exec m w) = π w.

(** What [setAnimation] never writes: everything but the facing, the
    descriptor table and the four frame fields. *)
Definition outsideAnimation (w : World) :=
  (x (me w), y (me w), bottom (me w), speed (me w), gravityEnabled (me w),
   canvas (me w), collisionData (me w), moveSpeed (me w), pressedKeys (me w),
   movement (me w), isIdle (me w), isDying (me w),
   env w, timers w, awaiting w, trace w, listening w).

(** The two speeds of the dash rule. *)
Definition speeds (w : World) : Q * Q := (speed (me w), moveSpeed (me w)).

(** The state of the death sequence: the guard, the restarts scheduled and
    not yet run, and the restarts running (awaiting the transition). *)
Definition deathState (w : World) : bool * nat * nat :=
  (isDying (me w), pending RestartLevel w, awaiting w).

(** The guard is up exactly while one restart is scheduled or running. *)
Definition dying_inv (w : World) : Prop :=
  (pending RestartLevel w + awaiting w)%nat = if isDying (me w) then 1%nat else 0%nat.

(** The parallax speeds, hills first. *)
Definition parallax (w : World) : Q * Q :=
  (backgroundHillsSpeed (env w), backgroundMountainsSpeed (env w)).

(** The [x] the lateral rules store: the left rule subtracts the speed
    in force from [x], then the right rule adds it to the [x] the left
    rule left. *)
Definition lateralX (p : Player) : Q :=
  let xl := if isActiveAnimation "a" p && left (movement p)
            then x p - lateralSpeed p else x p in
  if isActiveAnimation "d" p && right (movement p)
  then xl + lateralSpeed p else xl.

(** The [x] the two clamps leave of the [x] the moves produced: the tube
    clamp first, the left-boundary clamp on its result. *)
Definition clampedX (e : GameEnv) (xm : Q) : Q :=
  let xt := if Qleb (tubeX e) xm && Qleb xm (innerWidth e)
            then tubeX e - 1 else xm in
  if Qltb xt 0 then 1 else xt.

(** Neither clamp fires on the position the lateral rules produce. *)
Definition unclamped (w : World) : Prop :=
  let xl := x (me (moveLateral w)) in
  (Qleb (tubeX (env w)) xl && Qleb xl (innerWidth (env w))) = false
  ∧ Qltb xl 0 = false.

(** Two worlds in the same situation for the lateral rules, the first with
    the dash key active and the second without: same speeds, with
    [moveSpeed] three times [speed], same permissions, same direction keys
    active. *)
Definition sameButDash (wd wn : World) : Prop :=
  speed (me wd) = speed (me wn)
  ∧ moveSpeed (me wd) == speed (me wd) * 3
  ∧ movement (me wd) = movement (me wn)
  ∧ isActiveAnimation "a" (me wd) = isActiveAnimation "a" (me wn)
  ∧ isActiveAnimation "d" (me wd) = isActiveAnimation "d" (me wn)
  ∧ isActiveAnimation "s" (me wd) = true
  ∧ isActiveAnimation "s" (me wn) = false.

(** The decrease of [y] over the player's part of a frame. *)
Definition jumpDelta (w : World) : Q := y (me w) - y (me (exec update_body w)).

(** A touch point is an enemy contact. *)
Definition enemyContact (tp : TouchPoints) : Prop :=
  isEnemy (other_id (other tp)) = true.

(** The jump check of a frame fires: [isActiveGravityAnimation("w")]
    returns [true]. *)
Definition jumpFires (w : World) : Prop :=
  completion (isActiveGravityAnimation "w") w = Normal true.

(** ** Vocabulary of the further properties *)

(** A property of the world is preserved by a method when it holds in the
    world the method leaves behind, returning or raising, whenever it held
    before. *)
Definition preserved {B} (P : World → Prop) (m : Js B) : Prop :=
  ∀ w, P w → P (exec m w).

(** The descriptor table after [setAnimation(key)]: the left and right
    keys overwrite the entry of the jump with the facing variant. *)
Definition tableAfter (key : string) (pd : gmap string (option Animation))
  : gmap string (option Animation) :=
  if isKeyActionLeft key then <["w" := js_get "wa" pd]> pd
  else if isKeyActionRight key then <["w" := js_get "wd" pd]> pd
  else pd.

(** The facing after [setAnimation(key)]. *)
Definition facingAfter (key : string) (dk : string) : string :=
  if isKeyActionLeft key || isKeyActionRight key then key else dk.

(** What the key handlers never write: position, speeds, permissions,
    gravity, the death sequence and the calls to collaborators. *)
Definition physics (w : World) :=
  (x (me w), y (me w), bottom (me w), speed (me w), moveSpeed (me w),
   movement (me w), gravityEnabled (me w), isDying (me w),
   timers w, awaiting w, trace w).

(** What the collision reactor never writes: the height, the speeds, the
    latched keys, idleness and the environment apart from the
    invincibility flag. *)
Definition inputs (w : World) :=
  (y (me w), bottom (me w), speed (me w), moveSpeed (me w),
   pressedKeys (me w), isIdle (me w), style_filter (canvas (me w)),
   parallax w, playerX (env w), playerY (env w), innerWidth (env w),
   difficulty (env w), env_transitionHide (env w), awaiting w, listening w).

(** What a frame never writes: permissions, gravity, the latched keys,
    idleness, the canvas, the death sequence and the timers. *)
Definition frameFixed (w : World) :=
  (bottom (me w), speed (me w), moveSpeed (me w), movement (me w),
   gravityEnabled (me w), pressedKeys (me w), isIdle (me w), canvas (me w),
   isDying (me w), invincible (env w), innerWidth (env w),
   difficulty (env w), timers w, awaiting w, listening w).

(** Every latched key is a key of the descriptor table. *)
Definition latched_known (w : World) : Prop :=
  ∀ k, js_has k (pressedKeys (me w)) = true → js_has k (playerData (me w)) = true.

(** The player faces left or right. *)
Definition facing_ok (w : World) : Prop :=
  directionKey (me w) = "a" ∨ directionKey (me w) = "d".

(** The player is alive and no restart is scheduled or running. *)
Definition alive (w : World) : Prop :=
  isDying (me w) = false ∧ pending RestartLevel w = 0%nat ∧ awaiting w = 0%nat.

(** A turn that is a key event or a frame. *)
Definition keyOrFrame (ev : Event) : Prop :=
  match ev with
  | KeyDown _ | KeyUp _ | Frame => True
  | _ => False
  end.

(** ** The monad *)

Section Kept.
Context {A : Type} (π : World → A).

Lemma kept_ret {B} (b : B) : kept π (ret b).
Proof. by intros w. Qed.

Lemma kept_throw {B} : kept π (@throw B).
Proof. by intros w. Qed.

Lemma kept_read {B} (f : World → B) : kept π (read f).
Proof. by intros w. Qed.

Lemma kept_act (f : World → World) : (∀ w, π (f w) = π w) → kept π (act f).
Proof. intros H w. apply H. Qed.

(** A raise in [m] ends the method in the world [m] left. *)
Lemma kept_bind {B C} (m : Js B) (k : B → Js C) :
  kept π m → (∀ b, kept π (k b)) → kept π (bind m k).
Proof.
  intros Hm Hk w. unfold exec, bind. specialize (Hm w). unfold exec in Hm.
  destruct (m w) as [[b|] w1]; cbn in *; [|done].
  rewrite <- Hm. apply Hk.
Qed.

Lemma kept_when (b : bool) (m : Js unit) : kept π m → kept π (when b m).
Proof. intros H. destruct b; [done|]. apply kept_ret. Qed.
End Kept.

(** Leaves of a method body: a world transformer keeps a projection when
    each of its branches does. [kept_tac] follows the structure of a
    method down to its leaves. *)
Ltac leaf :=
  let w := fresh "w" in
  intros w;
  unfold publishPosition, moveLateral, moveLeft, moveRight, jumpImpulse, tubeClamp,
    leftClamp, tubeReaction, permitLateral, fallOffEdge, deathSequence, touch,
    setFrameX, setFrameY, setMinFrame, setMaxFrame;
  repeat case_match; reflexivity.

Ltac kept_step :=
  match goal with
  | |- kept _ (bind _ _) => apply kept_bind; [| intros ?]
  | |- kept _ (ret _) => apply kept_ret
  | |- kept _ throw => apply kept_throw
  | |- kept _ (read _) => apply kept_read
  | |- kept _ (when _ _) => apply kept_when
  | |- kept _ (act _) => apply kept_act; leaf
  | |- kept _ (if ?b then _ else _) => destruct b
  | |- kept _ (match ?o with Some _ => _ | None => _ end) => destruct o
  | |- kept _ (match ?o with true => _ | false => _ end) => destruct o
  | |- kept _ (setAnimation _) => unfold setAnimation
  | |- kept _ (isActiveGravityAnimation _) => unfold isActiveGravityAnimation
  | |- kept _ jump => unfold jump
  | |- kept _ moveAndJump => unfold moveAndJump
  | |- kept _ update_body => unfold update_body
  | |- kept _ (handleKeyDown _) => unfold handleKeyDown
  | |- kept _ (handleKeyUp _) => unfold handleKeyUp
  | |- kept _ (assignInvincible _) => unfold assignInvincible
  | |- kept _ enemyReaction => unfold enemyReaction
  | |- kept _ platformReaction => unfold platformReaction
  | |- kept _ collisionAction => unfold collisionAction
  | |- kept _ (collide _) => unfold collide
  end.

Ltac kept_tac := repeat kept_step.

(** ** What each method leaves alone *)

Lemma setAnimation_outside (key : string) : kept outsideAnimation (setAnimation key).
Proof. kept_tac. Qed.

Lemma isActiveGravityAnimation_outside (key : string) :
  kept outsideAnimation (isActiveGravityAnimation key).
Proof. kept_tac. Qed.

Lemma handleKeyDown_speeds key : kept speeds (handleKeyDown key).
Proof. kept_tac. Qed.

Lemma handleKeyUp_speeds key : kept speeds (handleKeyUp key).
Proof. kept_tac. Qed.

Lemma collide_speeds tp : kept speeds (collide tp).
Proof. kept_tac. Qed.

Lemma update_body_speeds : kept speeds update_body.
Proof. kept_tac. Qed.

(** ** The collision reactor, block by block *)

Lemma isEnemy_inv (id : string) :
  isEnemy id = true → id = "goomba" ∨ id = "flyingGoomba".
Proof.
  unfold isEnemy. intros H.
  apply orb_true_iff in H as [H|H]; apply String.eqb_eq in H; auto.
Qed.

Lemma isEnemy_not_tube (id : string) : isEnemy id = true → String.eqb id "tube" = false.
Proof. intros [-> | ->]%isEnemy_inv; reflexivity. Qed.

Lemma isEnemy_not_platform (id : string) :
  isEnemy id = true → String.eqb id "jumpPlatform" = false.
Proof. intros [-> | ->]%isEnemy_inv; reflexivity. Qed.

Lemma collide_unfold (tp : TouchPoints) (w : World) :
  collide tp w
  = (enemyReaction ;; platformReaction) (tubeReaction (with_me (set_collisionData tp) w)).
Proof. reflexivity. Qed.

Lemma tubeReaction_not_tube (w : World) :
  String.eqb (other_id (other (touch w))) "tube" = false →
  tubeReaction w = permitLateral w.
Proof. intros H. unfold tubeReaction. by rewrite H. Qed.

Lemma enemyReaction_easy (w : World) :
  isEnemy (other_id (other (touch w))) = true →
  difficulty (env w) = "easy" →
  enemyReaction w
  = (Normal tt, with_me (fun p => set_x (x p + 10 * direction (other (touch w))) p) w).
Proof.
  intros He Hd. unfold enemyReaction, bind, read, when. cbn.
  rewrite He, Hd. reflexivity.
Qed.

Lemma enemyReaction_lethal (w : World) :
  isEnemy (other_id (other (touch w))) = true →
  difficulty (env w) ≠ "easy" →
  enemyReaction w = (Normal tt, deathSequence (with_env (set_invincible true) w)).
Proof.
  intros He Hd. apply String.eqb_neq in Hd.
  unfold enemyReaction, bind, read, when. cbn.
  rewrite He, Hd. reflexivity.
Qed.

Lemma enemyReaction_other (w : World) :
  isEnemy (other_id (other (touch w))) = false → enemyReaction w = (Normal tt, w).
Proof.
  intros He. unfold enemyReaction, bind, read, when. cbn. by rewrite He.
Qed.

Lemma platformReaction_off (w : World) :
  String.eqb (other_id (other (touch w))) "jumpPlatform" = false →
  platformReaction w = (Normal tt, fallOffEdge w).
Proof.
  intros H. unfold platformReaction, bind, read. cbn. by rewrite H.
Qed.

Lemma touch_deathSequence (w : World) : touch (deathSequence w) = touch w.
Proof. unfold deathSequence, touch. by case_match. Qed.

(** An enemy contact on easy: lateral movement is permitted, the player is
    nudged, and the edge rule runs. *)
Lemma collide_enemy_easy (tp : TouchPoints) (w : World) :
  enemyContact tp → difficulty (env w) = "easy" →
  collide tp w
  = (Normal tt,
     fallOffEdge
       (with_me (fun p => set_x (x p + 10 * direction (other tp)) p)
          (permitLateral (with_me (set_collisionData tp) w)))).
Proof.
  intros He Hd. rewrite collide_unfold.
  rewrite tubeReaction_not_tube by (by apply isEnemy_not_tube).
  unfold bind. rewrite enemyReaction_easy by done.
  by rewrite platformReaction_off by (by apply isEnemy_not_platform).
Qed.

(** An enemy contact on another difficulty: the flag is stored, the death
    sequence runs, then the edge rule. *)
Lemma collide_enemy_lethal (tp : TouchPoints) (w : World) :
  enemyContact tp → difficulty (env w) ≠ "easy" →
  collide tp w
  = (Normal tt,
     fallOffEdge
       (deathSequence
          (with_env (set_invincible true)
             (permitLateral (with_me (set_collisionData tp) w))))).
Proof.
  intros He Hd. rewrite collide_unfold.
  rewrite tubeReaction_not_tube by (by apply isEnemy_not_tube).
  unfold bind. rewrite enemyReaction_lethal by done.
  rewrite platformReaction_off; [done|].
  rewrite touch_deathSequence. by apply isEnemy_not_platform.
Qed.

Lemma enemyReaction_normal (w : World) : completion enemyReaction w = Normal tt.
Proof.
  unfold completion.
  destruct (isEnemy (other_id (other (touch w)))) eqn:He.
  - destruct (decide (difficulty (env w) = "easy")) as [Hd|Hd].
    + by rewrite enemyReaction_easy.
    + by rewrite enemyReaction_lethal.
  - by rewrite enemyReaction_other.
Qed.

(** ** The death sequence *)

Lemma pending_setTimeout (t t' : Task) (ms : nat) (w : World) :
  pending t (setTimeout t' ms w)
  = (pending t w + if bool_decide (t' = t) then 1 else 0)%nat.
Proof.
  unfold pending, setTimeout. cbn.
  rewrite List.filter_app, length_app. cbn. by case_match.
Qed.

Lemma pending_remove (t : Task) (i : nat) (tm : Timer) (l : list Timer) :
  l !! i = Some tm →
  length (List.filter (fun tm => bool_decide (task tm = t)) l)
  = (length (List.filter (fun tm => bool_decide (task tm = t))
               (take i l ++ drop (S i) l))
     + if bool_decide (task tm = t) then 1 else 0)%nat.
Proof.
  intros Hi. rewrite <- (take_drop_middle l i tm Hi) at 1.
  rewrite !List.filter_app, !length_app. cbn.
  case_match; cbn; lia.
Qed.

Lemma tubeReaction_deathState (w : World) :
  deathState (tubeReaction w) = deathState w.
Proof.
  unfold tubeReaction, permitLateral, deathState.
  repeat case_match; try reflexivity;
    rewrite pending_setTimeout, bool_decide_eq_false_2 by done;
    by rewrite Nat.add_0_r.
Qed.

Lemma platformReaction_deathState : kept deathState platformReaction.
Proof. kept_tac. Qed.

Lemma handleKeyDown_deathState key : kept deathState (handleKeyDown key).
Proof. kept_tac. Qed.

Lemma handleKeyUp_deathState key : kept deathState (handleKeyUp key).
Proof. kept_tac. Qed.

Lemma update_body_deathState : kept deathState update_body.
Proof. kept_tac. Qed.

Lemma deathState_isDying (w w' : World) :
  deathState w' = deathState w → isDying (me w') = isDying (me w).
Proof. unfold deathState. by intros [= -> _ _]. Qed.

Lemma dying_inv_deathState (w w' : World) :
  deathState w' = deathState w → dying_inv w → dying_inv w'.
Proof.
  unfold deathState, dying_inv. intros [= -> -> ->]. done.
Qed.

Lemma collide_exec (tp : TouchPoints) (w : World) :
  exec (collide tp) w
  = exec platformReaction
      (exec enemyReaction (tubeReaction (with_me (set_collisionData tp) w))).
Proof.
  unfold exec at 1. rewrite collide_unfold. unfold bind.
  pose proof (enemyReaction_normal (tubeReaction (with_me (set_collisionData tp) w))) as Hn.
  unfold completion, exec in *.
  destruct (enemyReaction _) as [[[]|] w1]; [done | discriminate].
Qed.

Lemma enemyReaction_dying_inv (w : World) :
  dying_inv w → dying_inv (exec enemyReaction w).
Proof.
  intros Hi. unfold exec.
  destruct (isEnemy (other_id (other (touch w)))) eqn:He.
  - destruct (decide (difficulty (env w) = "easy")) as [Hd|Hd].
    + rewrite enemyReaction_easy by done. exact Hi.
    + rewrite enemyReaction_lethal by done. cbn.
      unfold dying_inv, deathSequence in *. cbn.
      destruct (isDying (me w)) eqn:E; cbn; rewrite ?E; [exact Hi|].
      unfold pending in *. cbn in *.
      rewrite List.filter_app, length_app. cbn.
      rewrite bool_decide_eq_true_2 by done. cbn. lia.
  - rewrite enemyReaction_other by done. exact Hi.
Qed.

Lemma enemyReaction_isDying_mono (w : World) :
  isDying (me w) = true → isDying (me (exec enemyReaction w)) = true.
Proof.
  intros Hi. unfold exec.
  destruct (isEnemy (other_id (other (touch w)))) eqn:He.
  - destruct (decide (difficulty (env w) = "easy")) as [Hd|Hd].
    + rewrite enemyReaction_easy by done. exact Hi.
    + rewrite enemyReaction_lethal by done. cbn.
      unfold deathSequence. cbn. by rewrite Hi.
  - rewrite enemyReaction_other by done. exact Hi.
Qed.

Lemma collide_dying_inv (tp : TouchPoints) (w : World) :
  dying_inv w → dying_inv (exec (collide tp) w).
Proof.
  intros Hi. rewrite collide_exec.
  eapply dying_inv_deathState; [apply platformReaction_deathState|].
  apply enemyReaction_dying_inv.
  eapply dying_inv_deathState; [apply tubeReaction_deathState|].
  exact Hi.
Qed.

Lemma collide_isDying_mono (tp : TouchPoints) (w : World) :
  isDying (me w) = true → isDying (me (exec (collide tp) w)) = true.
Proof.
  intros Hi. rewrite collide_exec.
  rewrite (deathState_isDying _ _ (platformReaction_deathState _)).
  apply enemyReaction_isDying_mono.
  by rewrite (deathState_isDying _ _ (tubeReaction_deathState _)).
Qed.

Lemma fireTimer_isDying (i : nat) (w : World) :
  isDying (me (fireTimer i w)) = isDying (me w).
Proof.
  unfold fireTimer. destruct (timers w !! i) as [[ms []]|]; reflexivity.
Qed.

Lemma fireTimer_dying_inv (i : nat) (w : World) :
  dying_inv w → dying_inv (fireTimer i w).
Proof.
  unfold dying_inv. rewrite fireTimer_isDying. intros <-.
  unfold fireTimer. destruct (timers w !! i) as [tm|] eqn:Hi; [|done].
  unfold pending at 2. rewrite (pending_remove RestartLevel i tm _ Hi).
  destruct tm as [ms []]; unfold runTask, pending, setTimeout, emit, with_me; cbn;
    rewrite ?List.filter_app, ?length_app; cbn;
    rewrite ?(bool_decide_eq_false_2 (TubeGravityOn = RestartLevel)),
            ?(bool_decide_eq_false_2 (TubeExit = RestartLevel)),
            ?(bool_decide_eq_true_2 (RestartLevel = RestartLevel)) by done;
    cbn; lia.
Qed.

Lemma resumeDeath_dying_inv (w : World) : dying_inv w → dying_inv (resumeDeath w).
Proof.
  unfold dying_inv, resumeDeath. destruct (awaiting w) as [|n] eqn:Ha.
  - intros H. by rewrite Ha.
  - cbn. unfold pending. cbn. intros H. destruct (isDying (me w)); lia.
Qed.

Lemma step_dying_inv (w : World) (ev : Event) : dying_inv w → dying_inv (step w ev).
Proof.
  intros Hi. destruct ev as [key|key| |tp|i|]; cbn.
  - case_match; [|done].
    eapply dying_inv_deathState; [apply handleKeyDown_deathState|done].
  - case_match; [|done].
    eapply dying_inv_deathState; [apply handleKeyUp_deathState|done].
  - eapply dying_inv_deathState; [apply update_body_deathState|done].
  - by apply collide_dying_inv.
  - by apply fireTimer_dying_inv.
  - by apply resumeDeath_dying_inv.
Qed.

Lemma run_dying_inv (evs : list Event) (w : World) :
  dying_inv w → dying_inv (run w evs).
Proof.
  revert w. induction evs as [|ev evs IH]; intros w Hi; [done|].
  cbn. apply IH. by apply step_dying_inv.
Qed.

Lemma constructor_dying_inv c data e : dying_inv (constructor c data e).
Proof. reflexivity. Qed.

(** The difficulty is an input of the controller: no turn writes it. *)
Lemma fireTimer_difficulty (i : nat) (w : World) :
  difficulty (env (fireTimer i w)) = difficulty (env w).
Proof.
  unfold fireTimer. destruct (timers w !! i) as [[ms []]|]; reflexivity.
Qed.

Lemma step_difficulty (w : World) (ev : Event) :
  difficulty (env (step w ev)) = difficulty (env w).
Proof.
  destruct ev as [key|key| |tp|i|]; cbn.
  - case_match; [|done].
    assert (Hk : kept (fun w => difficulty (env w)) (handleKeyDown key)) by kept_tac.
    apply Hk.
  - case_match; [|done].
    assert (Hk : kept (fun w => difficulty (env w)) (handleKeyUp key)) by kept_tac.
    apply Hk.
  - assert (Hk : kept (fun w => difficulty (env w)) update_body) by kept_tac.
    apply Hk.
  - assert (Hk : kept (fun w => difficulty (env w)) (collide tp)) by kept_tac.
    apply Hk.
  - apply fireTimer_difficulty.
  - unfold resumeDeath. by case_match.
Qed.

Lemma run_difficulty (evs : list Event) (w : World) :
  difficulty (env (run w evs)) = difficulty (env w).
Proof.
  revert w. induction evs as [|ev evs IH]; intros w; [done|].
  cbn. fold (run (step w ev) evs). rewrite IH. apply step_difficulty.
Qed.

(** The effects of a lethal contact. *)
Lemma collide_lethal_effects (w : World) (tp : TouchPoints) :
  enemyContact tp →
  difficulty (env w) ≠ "easy" →
  let w' := exec (collide tp) w in
  style_transform (canvas (me w'))
    = Some (mkDeathSpin (90 * direction (other tp))
                        (height (canvas (me w)) * (1 # 2) * direction (other tp)))
  ∧ trace w' = (trace w ++ [PlayPlayerDeath])%list
  ∧ timers w' = (if isDying (me w) then timers w
                 else (timers w ++ [mkTimer 700 RestartLevel])%list)
  ∧ isDying (me w') = true
  ∧ awaiting w' = awaiting w
  ∧ invincible (env w') = true.
Proof.
  intros He Hd w'. subst w'. unfold exec.
  rewrite collide_enemy_lethal by done. cbn.
  unfold fallOffEdge, deathSequence. cbn.
  destruct (isDying (me w)) eqn:E; cbn; case_match; cbn; rewrite ?E; done.
Qed.

(** A run of lethal contacts: the first one made alive schedules the
    restart, the others schedule nothing. *)
Lemma lethal_contacts_timers (tps : list TouchPoints) (w : World) :
  difficulty (env w) ≠ "easy" →
  Forall enemyContact tps →
  let w' := run w (Collision <$> tps) in
  awaiting w' = awaiting w
  ∧ timers w' = (if isDying (me w) then timers w
                 else match tps with
                      | [] => timers w
                      | _ :: _ => (timers w ++ [mkTimer 700 RestartLevel])%list
                      end)
  ∧ (isDying (me w) = true → isDying (me w') = true).
Proof.
  revert w. induction tps as [|tp tps IH]; intros w Hd Hall.
  - cbn. by destruct (isDying (me w)).
  - apply Forall_cons in Hall as [Htp Hall].
    destruct (collide_lethal_effects w tp Htp Hd) as (_ & _ & Ht & Hy & Ha & _).
    assert (Hd' : difficulty (env (exec (collide tp) w)) ≠ "easy").
    { change (exec (collide tp) w) with (step w (Collision tp)).
      by rewrite step_difficulty. }
    destruct (IH (exec (collide tp) w) Hd' Hall) as (IHa & IHt & IHy).
    change (run w (Collision <$> tp :: tps))
      with (run (exec (collide tp) w) (Collision <$> tps)).
    cbv zeta. rewrite Hy in IHt. rewrite IHa, IHt, Ha, Ht.
    split_and!; [done | by destruct (isDying (me w)) | auto].
Qed.

(** Only the completion of the awaited transition takes the guard down. *)
Lemma isDying_cleared_by (w : World) (ev : Event) :
  isDying (me w) = true →
  isDying (me (step w ev)) = false →
  ev = TransitionCompletes ∧ (0 < awaiting w)%nat.
Proof.
  intros Hy Hn. destruct ev as [key|key| |tp|i|]; cbn in Hn.
  - destruct (listening w); [|congruence].
    rewrite (deathState_isDying _ _ (handleKeyDown_deathState key w)) in Hn.
    congruence.
  - destruct (listening w); [|congruence].
    rewrite (deathState_isDying _ _ (handleKeyUp_deathState key w)) in Hn.
    congruence.
  - rewrite (deathState_isDying _ _ (update_body_deathState w)) in Hn.
    congruence.
  - rewrite collide_isDying_mono in Hn by done. discriminate.
  - rewrite fireTimer_isDying in Hn. congruence.
  - split; [done|]. unfold resumeDeath in Hn.
    destruct (awaiting w); [congruence | lia].
Qed.

(** C1. In any world the player can reach, on a difficulty other than
    easy, a run of enemy contacts made while [isDying] is set schedules no
    timer and starts no restart; a run made while it is clear schedules
    the restart once; at any time at most one restart is scheduled or
    running, and exactly one while [isDying] is set; and the only turn
    that clears [isDying] is the completion of the awaited transition. *)
Theorem C1_one_restart_per_death (c : Character)
    (data : gmap string (option Animation)) (e : GameEnv)
    (evs : list Event) (tps : list TouchPoints) :
  difficulty e ≠ "easy" →
  Forall enemyContact tps →
  let w0 := run (constructor c data e) evs in
  let w := run w0 (Collision <$> tps) in
  (isDying (me w0) = true →
     timers w = timers w0 ∧ awaiting w = awaiting w0 ∧ isDying (me w) = true)
  ∧ (isDying (me w0) = false → tps ≠ [] →
     timers w = (timers w0 ++ [mkTimer 700 RestartLevel])%list
     ∧ awaiting w = awaiting w0)
  ∧ (pending RestartLevel w + awaiting w ≤ 1)%nat
  ∧ (isDying (me w) = true ↔ (pending RestartLevel w + awaiting w)%nat = 1%nat)
  ∧ (∀ ev : Event,
       isDying (me w) = true → isDying (me (step w ev)) = false →
       ev = TransitionCompletes ∧ awaiting w = 1%nat).
Proof.
  intros Hd Hall w0 w.
  assert (Hd0 : difficulty (env w0) ≠ "easy").
  { subst w0. by rewrite run_difficulty. }
  assert (Hinv : dying_inv w).
  { subst w w0. apply run_dying_inv, run_dying_inv, constructor_dying_inv. }
  destruct (lethal_contacts_timers tps w0 Hd0 Hall) as (Ha & Ht & Hy).
  fold w in Ha, Ht, Hy. unfold dying_inv in Hinv.
  split_and!.
  - intros Hy0. rewrite Hy0 in Ht. auto.
  - intros Hy0 Hne. rewrite Hy0 in Ht. by destruct tps.
  - destruct (isDying (me w)); lia.
  - destruct (isDying (me w)); split; intros; (done || lia).
  - intros ev Hy1 Hy2. destruct (isDying_cleared_by w ev Hy1 Hy2) as [-> Hpos].
    split; [done|]. rewrite Hy1 in Hinv. lia.
Qed.

Lemma C1_witness :
  let w0 := run (constructor (sampleCharacter 100 300 300 1) sampleData
                   (sampleEnv 1000 "hard")) [KeyDown "d"; Frame] in
  let tps := [contact "goomba" true false false false;
              contact "flyingGoomba" false true false false] in
  let w := run w0 (Collision <$> tps) in
  (isDying (me w0) = true →
     timers w = timers w0 ∧ awaiting w = awaiting w0 ∧ isDying (me w) = true)
  ∧ (isDying (me w0) = false → tps ≠ [] →
     timers w = (timers w0 ++ [mkTimer 700 RestartLevel])%list
     ∧ awaiting w = awaiting w0)
  ∧ (pending RestartLevel w + awaiting w ≤ 1)%nat
  ∧ (isDying (me w) = true ↔ (pending RestartLevel w + awaiting w)%nat = 1%nat)
  ∧ (∀ ev : Event,
       isDying (me w) = true → isDying (me (step w ev)) = false →
       ev = TransitionCompletes ∧ awaiting w = 1%nat).
Proof.
  apply (C1_one_restart_per_death (sampleCharacter 100 300 300 1) sampleData
           (sampleEnv 1000 "hard") [KeyDown "d"; Frame]
           [contact "goomba" true false false false;
            contact "flyingGoomba" false true false false]).
  - discriminate.
  - repeat constructor.
Defined.

(** ** Enemy contact *)

(** C8. On a difficulty other than easy every goomba or flyingGoomba
    contact runs the lethal branch whatever the invincibility flag held
    before: the death-spin transform is written, the death sound is
    played, and a restart is scheduled after 700 ms unless [isDying] was
    already set. The outcome is the same for both prior values of the
    flag. *)
Theorem C8_lethal_branch_always_runs (w : World) (tp : TouchPoints) :
  enemyContact tp →
  difficulty (env w) ≠ "easy" →
  let w' := exec (collide tp) w in
  style_transform (canvas (me w'))
    = Some (mkDeathSpin (90 * direction (other tp))
                        (height (canvas (me w)) * (1 # 2) * direction (other tp)))
  ∧ trace w' = (trace w ++ [PlayPlayerDeath])%list
  ∧ timers w' = (if isDying (me w) then timers w
                 else (timers w ++ [mkTimer 700 RestartLevel])%list)
  ∧ isDying (me w') = true
  ∧ ∀ flag : bool, exec (collide tp) (with_env (set_invincible flag) w) = w'.
Proof.
  intros He Hd w'. subst w'.
  destruct (collide_lethal_effects w tp He Hd) as (H1 & H2 & H3 & H4 & _ & _).
  split_and!; try done.
  intros flag. unfold exec. by rewrite !collide_enemy_lethal by done.
Qed.

Lemma C8_witness :
  let w := start 100 1000 "hard" in
  let tp := contact "goomba" true false false false in
  let w' := exec (collide tp) w in
  style_transform (canvas (me w'))
    = Some (mkDeathSpin (90 * direction (other tp))
                        (height (canvas (me w)) * (1 # 2) * direction (other tp)))
  ∧ trace w' = (trace w ++ [PlayPlayerDeath])%list
  ∧ timers w' = (if isDying (me w) then timers w
                 else (timers w ++ [mkTimer 700 RestartLevel])%list)
  ∧ isDying (me w') = true
  ∧ ∀ flag : bool, exec (collide tp) (with_env (set_invincible flag) w) = w'.
Proof.
  apply (C8_lethal_branch_always_runs (start 100 1000 "hard")
           (contact "goomba" true false false false)).
  - reflexivity.
  - discriminate.
Defined.

(** C9. On easy an enemy contact moves the player by 10 in the contact
    direction, [-1] when the enemy's left face is touched and [+1]
    otherwise, and leaves [isDying] as it was; from [x = 100], with the
    enemy on the player's left (its left face is not the one touched),
    [x] becomes 110 and [isDying] stays false. *)
Theorem C9_easy_nudge (w : World) (tp : TouchPoints) :
  enemyContact tp →
  difficulty (env w) = "easy" →
  let w' := exec (collide tp) w in
  x (me w') = x (me w) + 10 * direction (other tp)
  ∧ direction (other tp) = (if other_left (other tp) then -1 else 1)
  ∧ isDying (me w') = isDying (me w)
  ∧ timers w' = timers w
  ∧ (x (me w) = 100 → other_left (other tp) = false → isDying (me w) = false →
     x (me w') = 110 ∧ isDying (me w') = false).
Proof.
  intros He Hd w'. subst w'. unfold exec.
  rewrite collide_enemy_easy by done. cbn.
  assert (Hx : x (me (fallOffEdge
                 (with_me (fun p => set_x (x p + 10 * direction (other tp)) p)
                    (permitLateral (with_me (set_collisionData tp) w)))))
               = x (me w) + 10 * direction (other tp)).
  { unfold fallOffEdge. by case_match. }
  assert (Hdy : isDying (me (fallOffEdge
                 (with_me (fun p => set_x (x p + 10 * direction (other tp)) p)
                    (permitLateral (with_me (set_collisionData tp) w)))))
               = isDying (me w)).
  { unfold fallOffEdge. by case_match. }
  split_and!; try done.
  - unfold fallOffEdge. by case_match.
  - intros H100 Hleft Hdying. rewrite Hx, Hdy, H100. unfold direction.
    by rewrite Hleft.
Qed.

Lemma C9_witness :
  let w := start 100 1000 "easy" in
  let tp := contact "goomba" false true false false in
  let w' := exec (collide tp) w in
  x (me w') = x (me w) + 10 * direction (other tp)
  ∧ direction (other tp) = (if other_left (other tp) then -1 else 1)
  ∧ isDying (me w') = isDying (me w)
  ∧ timers w' = timers w
  ∧ (x (me w) = 100 → other_left (other tp) = false → isDying (me w) = false →
     x (me w') = 110 ∧ isDying (me w') = false).
Proof.
  apply (C9_easy_nudge (start 100 1000 "easy")
           (contact "goomba" false true false false)); reflexivity.
Defined.

(** C10. The constructor stores [false] in the invincibility flag of the
    shared environment, and every goomba or flyingGoomba contact on a
    difficulty other than easy stores [true] in it. *)
Theorem C10_invincible_flag_written (c : Character)
    (data : gmap string (option Animation)) (e : GameEnv)
    (w : World) (tp : TouchPoints) :
  enemyContact tp →
  difficulty (env w) ≠ "easy" →
  invincible (env (constructor c data e)) = false
  ∧ invincible (env (exec (collide tp) w)) = true.
Proof.
  intros He Hd. split; [reflexivity|].
  by destruct (collide_lethal_effects w tp He Hd) as (_ & _ & _ & _ & _ & H).
Qed.

Lemma C10_witness :
  invincible (env (constructor (sampleCharacter 100 300 300 1) sampleData
                     (sampleEnv 1000 "normal"))) = false
  ∧ invincible (env (exec (collide (contact "flyingGoomba" true false false false))
                       (with_env (set_invincible false) (start 100 1000 "normal"))))
    = true.
Proof.
  apply (C10_invincible_flag_written (sampleCharacter 100 300 300 1) sampleData
           (sampleEnv 1000 "normal")
           (with_env (set_invincible false) (start 100 1000 "normal"))
           (contact "flyingGoomba" true false false false)).
  - reflexivity.
  - discriminate.
Defined.


(** The scenario of the easy contact: from [x = 100], with the enemy on
    the player's left, the player ends at [x = 110] and is not dying. *)
Example easy_contact_scenario :
  let w := run (start 100 1000 "easy")
             [Collision (contact "goomba" false true false false)] in
  x (me w) = 110 ∧ isDying (me w) = false ∧ timers w = [].
Proof. vm_compute. done. Qed.

(** A death sequence from start to end: two contacts schedule one
    restart; the timer fires and the transition is requested; a third
    contact during the transition schedules nothing; the completion of
    the transition clears the guard. *)
Example death_sequence_scenario :
  let hit := Collision (contact "goomba" true false false false) in
  let w := start 100 1000 "hard" in
  timers (run w [hit; hit]) = [mkTimer 700 RestartLevel]
  ∧ isDying (me (run w [hit; hit; TimerFires 0; hit])) = true
  ∧ timers (run w [hit; hit; TimerFires 0; hit]) = []
  ∧ awaiting (run w [hit; hit; TimerFires 0; hit]) = 1%nat
  ∧ isDying (me (run w [hit; hit; TimerFires 0; hit; TransitionCompletes])) = false.
Proof. vm_compute. done. Qed.

(** ** Keys *)

(** C7. A key-down or key-up event for a key with no entry in the
    descriptor table changes nothing: the handler returns and the world
    is the one it was given. *)
Theorem C7_unrecognized_key_ignored (w : World) (key : string) :
  playerData (me w) !! key = None →
  handleKeyDown key w = (Normal tt, w)
  ∧ handleKeyUp key w = (Normal tt, w)
  ∧ step w (KeyDown key) = w
  ∧ step w (KeyUp key) = w.
Proof.
  intros Hk.
  assert (Hd : handleKeyDown key w = (Normal tt, w)).
  { unfold handleKeyDown, bind, read, when, js_has. cbn. by rewrite Hk. }
  assert (Hu : handleKeyUp key w = (Normal tt, w)).
  { unfold handleKeyUp, bind, read, when, js_has. cbn. by rewrite Hk. }
  split_and!; try done.
  - cbn. unfold exec. rewrite Hd. by case_match.
  - cbn. unfold exec. rewrite Hu. by case_match.
Qed.

Lemma C7_witness :
  let w := start 100 1000 "normal" in
  handleKeyDown "q" w = (Normal tt, w)
  ∧ handleKeyUp "q" w = (Normal tt, w)
  ∧ step w (KeyDown "q") = w
  ∧ step w (KeyUp "q") = w.
Proof.
  apply (C7_unrecognized_key_ignored (start 100 1000 "normal") "q").
  vm_compute. reflexivity.
Defined.

#[local] Arguments setAnimation : simpl never.

(** ** The jump platform *)


Lemma tubeReaction_down (w : World) :
  touch (tubeReaction w) = touch w
  ∧ down (movement (me (tubeReaction w))) = down (movement (me w)).
Proof. unfold tubeReaction, permitLateral, touch. by repeat case_match. Qed.

Lemma enemyReaction_down :
  kept (fun w => (touch w, down (movement (me w)))) enemyReaction.
Proof. kept_tac. Qed.

Lemma before_platform (tp : TouchPoints) (w : World) :
  let w2 := exec enemyReaction (tubeReaction (with_me (set_collisionData tp) w)) in
  touch w2 = tp ∧ down (movement (me w2)) = down (movement (me w)).
Proof.
  cbn. pose proof (enemyReaction_down
    (tubeReaction (with_me (set_collisionData tp) w))) as He.
  injection He as -> ->.
  destruct (tubeReaction_down (with_me (set_collisionData tp) w)) as [-> ->].
  done.
Qed.

Lemma setAnimation_standing (key : string) (w : World) :
  movement (me (snd (setAnimation key w))) = movement (me w)
  ∧ gravityEnabled (me (snd (setAnimation key w))) = gravityEnabled (me w).
Proof.
  pose proof (setAnimation_outside key w) as Ho.
  unfold outsideAnimation, exec in Ho.
  injection Ho as _ _ _ _ Hg _ _ _ _ Hm _ _ _ _ _ _ _. done.
Qed.

Lemma platformReaction_on_top (w : World) :
  other_id (other (touch w)) = "jumpPlatform" →
  this_top (this (touch w)) = true →
  let w' := exec platformReaction w in
  down (movement (me w')) = false ∧ gravityEnabled (me w') = false.
Proof.
  intros Hid Htop. cbv zeta.
  unfold platformReaction, exec, bind, read, when, act. cbn.
  rewrite Hid, Htop. cbn.
  destruct (other_left (other (touch w))), (other_right (other (touch w))); cbn;
    match goal with
    | |- context [setAnimation ?k ?W] =>
        destruct (setAnimation_standing k W) as [-> ->]
    end; done.
Qed.

Lemma platformReaction_no_face (w : World) :
  other_id (other (touch w)) = "jumpPlatform" →
  other_left (other (touch w)) = false →
  other_right (other (touch w)) = false →
  this_top (this (touch w)) = false →
  platformReaction w = (Normal tt, w).
Proof.
  intros Hid Hl Hr Ht. unfold platformReaction, bind, read, when, act. cbn.
  by rewrite Hid, Hl, Hr, Ht.
Qed.

(** C5, as amended. A jump-platform contact in which the player's own top
    face touches leaves [movement.down = false] and
    [gravityEnabled = false]; a later contact with anything that is
    not a jump platform, made while [movement.down] is false, leaves
    [movement.down = true] and [gravityEnabled = true]; and a
    jump-platform contact in which neither the platform's left face, nor
    its right face, nor the player's top face touches changes neither
    [movement.down] nor [gravityEnabled]. *)
Theorem C5_platform_stand_and_leave (w v : World) (tp tq : TouchPoints) :
  other_id (other tp) = "jumpPlatform" →
  this_top (this tp) = true →
  other_id (other tq) ≠ "jumpPlatform" →
  down (movement (me v)) = false →
  let w' := exec (collide tp) w in
  let v' := exec (collide tq) v in
  (down (movement (me w')) = false ∧ gravityEnabled (me w') = false)
  ∧ (down (movement (me v')) = true ∧ gravityEnabled (me v') = true)
  ∧ (∀ (u : World) (tr : TouchPoints),
       other_id (other tr) = "jumpPlatform" →
       other_left (other tr) = false →
       other_right (other tr) = false →
       this_top (this tr) = false →
       down (movement (me (exec (collide tr) u))) = down (movement (me u))
       ∧ gravityEnabled (me (exec (collide tr) u)) = gravityEnabled (me u)).
Proof.
  intros Hid Htop Hq Hdown. cbn. rewrite !collide_exec. split; [|split].
  - destruct (before_platform tp w) as [Ht _].
    apply platformReaction_on_top; by rewrite Ht.
  - destruct (before_platform tq v) as [Ht Hd].
    unfold exec at 1 3. rewrite platformReaction_off.
    2:{ rewrite Ht. by apply String.eqb_neq. }
    cbn. unfold fallOffEdge. rewrite Hd, Hdown. by cbn.
  - intros u tr Hj Hl Hr Ht. rewrite collide_exec.
    set (u0 := with_me (set_collisionData tr) u).
    assert (Htube : tubeReaction u0 = permitLateral u0).
    { apply tubeReaction_not_tube. cbn. by rewrite Hj. }
    rewrite Htube.
    assert (He : exec enemyReaction (permitLateral u0) = permitLateral u0).
    { unfold exec. rewrite enemyReaction_other; [done|]. cbn. by rewrite Hj. }
    rewrite He. unfold exec. rewrite platformReaction_no_face; done.
Qed.

Lemma C5_witness :
  let w := start 100 1000 "normal" in
  let tp := contact "jumpPlatform" false false false true in
  let v := exec (collide tp) w in
  let tq := noTouch in
  let w' := exec (collide tp) w in
  let v' := exec (collide tq) v in
  (down (movement (me w')) = false ∧ gravityEnabled (me w') = false)
  ∧ (down (movement (me v')) = true ∧ gravityEnabled (me v') = true)
  ∧ (∀ (u : World) (tr : TouchPoints),
       other_id (other tr) = "jumpPlatform" →
       other_left (other tr) = false →
       other_right (other tr) = false →
       this_top (this tr) = false →
       down (movement (me (exec (collide tr) u))) = down (movement (me u))
       ∧ gravityEnabled (me (exec (collide tr) u)) = gravityEnabled (me u)).
Proof.
  apply (C5_platform_stand_and_leave (start 100 1000 "normal")
           (exec (collide (contact "jumpPlatform" false false false true))
              (start 100 1000 "normal"))
           (contact "jumpPlatform" false false false true) noTouch).
  - reflexivity.
  - reflexivity.
  - discriminate.
  - vm_compute. reflexivity.
Defined.

(** C5, as stated, fails: standing on a jump platform, a contact with the
    platform in which neither its left face, nor its right face, nor the
    player's top face touches matches none of the jump-platform
    conditions, yet [movement.down] stays false and gravity stays off. *)
Lemma C5_counterexample :
  let v := exec (collide (contact "jumpPlatform" false false false true))
             (start 100 1000 "normal") in
  let tq := contact "jumpPlatform" false false true false in
  let v' := exec (collide tq) v in
  down (movement (me v)) = false
  ∧ other_left (other tq) = false
  ∧ other_right (other tq) = false
  ∧ this_top (this tq) = false
  ∧ down (movement (me v')) = false
  ∧ gravityEnabled (me v') = false.
Proof. vm_compute. done. Qed.

(** ** Parallax *)

Lemma setAnimation_normal (key : string) (w : World) (a : Animation) :
  js_get key (playerData (me w)) = Some a →
  completion (setAnimation key) w = Normal tt.
Proof.
  intros Ha. unfold completion, setAnimation, bind, read, act. cbn.
  rewrite Ha. cbn.
  destruct (isKeyActionLeft key), (isKeyActionRight key); cbn;
    repeat (case_match; cbn); reflexivity.
Qed.

(** [setAnimation] on a key that has a descriptor: it returns, and the
    position and the environment are as before. *)
Lemma setAnimation_run (key : string) (w : World) (a : Animation) :
  js_get key (playerData (me w)) = Some a →
  ∃ w', setAnimation key w = (Normal tt, w')
        ∧ x (me w') = x (me w) ∧ env w' = env w.
Proof.
  intros Ha.
  pose proof (setAnimation_normal key w a Ha) as Hn.
  pose proof (setAnimation_outside key w) as Ho.
  unfold completion, exec, outsideAnimation in *.
  destruct (setAnimation key w) as [[[]|] w']; [|discriminate].
  exists w'. cbn in Ho. injection Ho as Hx _ _ _ _ _ _ _ _ _ _ _ He _ _ _ _.
  done.
Qed.

Lemma js_get_has {V} (key : string) (obj : gmap string (option V)) (v : V) :
  js_get key obj = Some v → js_has key obj = true.
Proof. unfold js_get, js_has. by case_match. Qed.

Lemma keydown_parallax (key : string) (w : World) (a : Animation) :
  js_get key (playerData (me w)) = Some a →
  parallax (exec (handleKeyDown key) w)
  = if isKeyActionLeft key && Qltb 2 (x (me w)) then (-2 # 5, -1 # 10)
    else if isKeyActionRight key then (2 # 5, 1 # 10)
    else parallax w.
Proof.
  intros Ha. unfold exec, handleKeyDown, bind, read, when, act. cbn.
  rewrite (js_get_has _ _ _ Ha).
  destruct (js_has key (pressedKeys (me w))); cbn.
  - destruct (isKeyActionDash key); cbn;
      destruct (isKeyActionLeft key && Qltb 2 (x (me w))); cbn; try reflexivity;
      destruct (isKeyActionRight key); reflexivity.
  - edestruct (setAnimation_run key) as (w' & -> & Hx & He); [exact Ha|].
    cbn in Hx, He.
    destruct (isKeyActionDash key); cbn; rewrite Hx;
      destruct (isKeyActionLeft key && Qltb 2 (x (me w))); cbn; try reflexivity;
      destruct (isKeyActionRight key); cbn; unfold parallax; cbn; by rewrite ?He.
Qed.

Lemma keyup_parallax (key : string) (w : World) (a : Animation) :
  js_get key (playerData (me w)) = Some a →
  parallax (exec (handleKeyUp key) w)
  = if isKeyActionLeft key || isKeyActionRight key || isKeyActionDash key
    then (0, 0) else parallax w.
Proof.
  intros Ha. unfold exec, handleKeyUp, bind, read, when, act. cbn.
  rewrite (js_get_has _ _ _ Ha).
  destruct (js_has key (pressedKeys (me w))); cbn;
    (edestruct (setAnimation_run key) as (w' & -> & Hx & He); [exact Ha|]);
    cbn in Hx, He;
    destruct (isKeyActionDash key); cbn;
    destruct (isKeyActionLeft key || isKeyActionRight key || _); cbn;
    unfold parallax; cbn; by rewrite ?He.
Qed.

(** C6, as amended. For a key that has a descriptor: a press of the right
    key sets the parallax speeds to hills 0.4, mountains 0.1; a press of
    the left key sets them to hills -0.4, mountains -0.1 when [x > 2] and
    leaves them as they were when [x <= 2]; a release of the left, right
    or dash key sets both to 0. *)
Theorem C6_parallax_on_keys (w : World) (key : string) (a : Animation) :
  js_get key (playerData (me w)) = Some a →
  (key = "d" → parallax (exec (handleKeyDown key) w) = (2 # 5, 1 # 10))
  ∧ (key = "a" → 2 < x (me w) →
     parallax (exec (handleKeyDown key) w) = (-2 # 5, -1 # 10))
  ∧ (key = "a" → x (me w) <= 2 →
     parallax (exec (handleKeyDown key) w) = parallax w)
  ∧ (key = "a" ∨ key = "d" ∨ key = "s" →
     parallax (exec (handleKeyUp key) w) = (0, 0)).
Proof.
  intros Ha. split_and!.
  - intros ->. by rewrite (keydown_parallax _ _ _ Ha).
  - intros -> Hx. rewrite (keydown_parallax _ _ _ Ha). cbn.
    unfold Qltb. destruct (Qle_bool (x (me w)) 2) eqn:E; [|done].
    apply Qle_bool_iff in E. lra.
  - intros -> Hx. rewrite (keydown_parallax _ _ _ Ha). cbn.
    unfold Qltb. apply Qle_bool_iff in Hx. by rewrite Hx.
  - intros Hk. rewrite (keyup_parallax _ _ _ Ha).
    by destruct Hk as [-> | [-> | ->]].
Qed.

Lemma C6_witness :
  let w := start 100 1000 "normal" in
  let key := "a" in
  (key = "d" → parallax (exec (handleKeyDown key) w) = (2 # 5, 1 # 10))
  ∧ (key = "a" → 2 < x (me w) →
     parallax (exec (handleKeyDown key) w) = (-2 # 5, -1 # 10))
  ∧ (key = "a" → x (me w) <= 2 →
     parallax (exec (handleKeyDown key) w) = parallax w)
  ∧ (key = "a" ∨ key = "d" ∨ key = "s" →
     parallax (exec (handleKeyUp key) w) = (0, 0)).
Proof.
  apply (C6_parallax_on_keys (start 100 1000 "normal") "a"
           (mkAnimation 1 15 (Some (mkIdleFrame 7 0)))).
  vm_compute. reflexivity.
Defined.

(** The scenario of the right key on a screen 1000 wide: the press sets
    the hill speed to 0.4, the release sets it to 0. *)
Example right_key_scenario :
  let w := start 100 1000 "normal" in
  backgroundHillsSpeed (env (run w [KeyDown "d"])) = 2 # 5
  ∧ backgroundHillsSpeed (env (run w [KeyDown "d"; KeyUp "d"])) = 0.
Proof. vm_compute. done. Qed.

(** C6, as stated, fails: at [x = 1], where the left-boundary clamp puts
    the player, a press of the left key, which has a descriptor, leaves
    the parallax speeds at 0 instead of setting hills -0.4, mountains
    -0.1. *)
Lemma C6_counterexample :
  let w := start 1 1000 "normal" in
  js_has "a" (playerData (me w)) = true
  ∧ listening w = true
  ∧ parallax (step w (KeyDown "a")) = (0, 0)
  ∧ parallax (step w (KeyDown "a")) ≠ (-2 # 5, -1 # 10).
Proof. vm_compute. split_and!; done. Qed.

(** ** The frame step *)

Lemma with_me_set_x_id (w : World) : with_me (set_x (x (me w))) w = w.
Proof. by destruct w as [[] ? ? ? ? ?]. Qed.

(** The left rule writes [x] only. *)
Lemma moveLeft_x (w : World) :
  moveLeft w
  = with_me (set_x (if isActiveAnimation "a" (me w) && left (movement (me w))
                    then x (me w) - lateralSpeed (me w) else x (me w))) w.
Proof.
  unfold moveLeft.
  destruct (isActiveAnimation "a" (me w)); [destruct (left (movement (me w)))|];
    cbn; [reflexivity | by rewrite with_me_set_x_id ..].
Qed.

(** The right rule writes [x] only. *)
Lemma moveRight_x (w : World) :
  moveRight w
  = with_me (set_x (if isActiveAnimation "d" (me w) && right (movement (me w))
                    then x (me w) + lateralSpeed (me w) else x (me w))) w.
Proof.
  unfold moveRight.
  destruct (isActiveAnimation "d" (me w)); [destruct (right (movement (me w)))|];
    cbn; [reflexivity | by rewrite with_me_set_x_id ..].
Qed.

(** The lateral rules write [x] only, and store [lateralX] there. *)
Lemma moveLateral_x (w : World) :
  moveLateral w = with_me (set_x (lateralX (me w))) w.
Proof. unfold moveLateral. rewrite moveLeft_x, moveRight_x. reflexivity. Qed.

Lemma moveLateral_eq (w : World) :
  ∃ x', moveLateral w = with_me (set_x x') w ∧ x' = lateralX (me w).
Proof. exists (lateralX (me w)). by rewrite moveLateral_x. Qed.

Lemma moveLateral_with_env (f : GameEnv → GameEnv) (w : World) :
  moveLateral (with_env f w) = with_env f (moveLateral w).
Proof.
  unfold moveLateral, moveRight, moveLeft. cbn.
  destruct (isActiveAnimation "a" (me w)); [destruct (left (movement (me w)))|]; cbn;
    (destruct (isActiveAnimation "d" _); [destruct (right (movement _))|]);
    reflexivity.
Qed.

(** The world at the jump check: the position is published and [x] is
    the one the lateral rules produce. *)
Lemma before_jump (w : World) :
  moveLateral (publishPosition w)
  = with_env (set_PlayerPosition (x (me w)) (y (me w))) (moveLateral w).
Proof. unfold publishPosition. apply moveLateral_with_env. Qed.

Lemma moveAndJump_unfold (w : World) :
  moveAndJump w = jump (moveLateral (publishPosition w)).
Proof. reflexivity. Qed.

Lemma pair_eq_inv {A B} (a a' : A) (b b' : B) :
  (a, b) = (a', b') → a = a' ∧ b = b'.
Proof. by intros [= -> ->]. Qed.

Lemma jump_position : kept (fun w => (x (me w), innerWidth (env w))) jump.
Proof. kept_tac. Qed.

(** The jump leaves [x] and the screen width alone. *)
Lemma moveAndJump_x (w : World) :
  x (me (exec moveAndJump w)) = x (me (moveLateral w))
  ∧ innerWidth (env (exec moveAndJump w)) = innerWidth (env w).
Proof.
  unfold exec. rewrite moveAndJump_unfold.
  destruct (pair_eq_inv _ _ _ _ (jump_position (moveLateral (publishPosition w))))
    as [Hx Hw].
  unfold exec in Hx, Hw. rewrite Hx, Hw, before_jump.
  by destruct (moveLateral_eq w) as (x' & -> & _).
Qed.

Lemma update_body_unfold (w : World) :
  update_body w
  = match moveAndJump w with
    | (Normal _, w1) => (Normal tt, leftClamp (tubeClamp w1))
    | (TypeError, w1) => (TypeError, w1)
    end.
Proof.
  unfold update_body, bind. by destruct (moveAndJump w) as [[[]|] w1].
Qed.

(** When no clamp fires the frame leaves [x] where the lateral rules put
    it, whether the jump check returned or raised. *)
Lemma update_body_unclamped (w : World) :
  unclamped w → x (me (exec update_body w)) = x (me (moveLateral w)).
Proof.
  intros [Ht Hl]. unfold exec. rewrite update_body_unfold.
  destruct (moveAndJump_x w) as [Hx Hw]. unfold exec in Hx, Hw.
  destruct (moveAndJump w) as [[[]|] w1]; cbn in *; [|done].
  unfold tubeClamp, tubeX in *. rewrite Hx, Hw, Ht.
  unfold leftClamp. by rewrite Hx, Hl.
Qed.

Lemma update_body_clamped (w w1 : World) :
  moveAndJump w = (Normal tt, w1) →
  tubeX (env w) <= x (me w1) →
  x (me w1) <= innerWidth (env w) →
  x (me (exec update_body w))
  = if Qltb (tubeX (env w) - 1) 0 then 1 else tubeX (env w) - 1.
Proof.
  intros Hm Hlo Hhi. unfold exec. rewrite update_body_unfold.
  destruct (moveAndJump_x w) as [_ Hw]. unfold exec in Hw.
  rewrite Hm in *. cbn in *.
  unfold tubeClamp, tubeX, Qleb in *. rewrite Hw.
  apply Qle_bool_iff in Hlo, Hhi. rewrite Hlo, Hhi. cbn.
  unfold leftClamp. cbn. by case_match.
Qed.

(** The [x] a frame leaves: the clamps act on the [x] of the lateral
    rules when the jump check returns, and are not reached when it
    raises. *)
Lemma update_body_x (w : World) :
  x (me (exec update_body w))
  = match completion update_body w with
    | Normal _ => clampedX (env w) (lateralX (me w))
    | TypeError => lateralX (me w)
    end.
Proof.
  unfold exec, completion. rewrite update_body_unfold.
  destruct (moveAndJump_x w) as [Hx Hw]. unfold exec in Hx, Hw.
  assert (Hl : x (me (moveLateral w)) = lateralX (me w))
    by (by rewrite moveLateral_x).
  rewrite Hl in Hx.
  destruct (moveAndJump w) as [[[]|] w1]; cbn [fst snd] in *; [|exact Hx].
  unfold clampedX, leftClamp, tubeClamp, tubeX. rewrite Hx, Hw.
  destruct (Qleb _ _ && Qleb _ _); cbn [me x with_me set_x];
    rewrite ?Hx; by destruct (Qltb _ 0).
Qed.

Lemma Qltb_lt (a b : Q) : Qltb a b = true ↔ a < b.
Proof.
  unfold Qltb. rewrite negb_true_iff, <- not_true_iff_false, Qle_bool_iff.
  split; lra.
Qed.

(** C4, as amended. If after the lateral movement and the jump [x] lies
    in [0.8 * width, width], the frame leaves [x] at exactly
    [0.8 * width - 1] before the generic update, provided that value is
    not negative, that is [0.8 * width >= 1]; on a narrower screen the
    left-boundary clamp that follows puts [x] at 1. *)
Theorem C4_tube_clamp (w w1 : World) :
  moveAndJump w = (Normal tt, w1) →
  tubeX (env w) <= x (me w1) →
  x (me w1) <= innerWidth (env w) →
  tubeX (env w) = (4 # 5) * innerWidth (env w)
  ∧ (1 <= tubeX (env w) → x (me (exec update_body w)) = tubeX (env w) - 1)
  ∧ (tubeX (env w) < 1 → x (me (exec update_body w)) = 1).
Proof.
  intros Hm Hlo Hhi. rewrite (update_body_clamped w w1 Hm Hlo Hhi).
  split_and!; [done | |]; intros Hw; unfold Qltb;
    destruct (Qle_bool 0 (tubeX (env w) - 1)) eqn:E; cbn; try done.
  - apply not_true_iff_false in E. rewrite Qle_bool_iff in E. lra.
  - apply Qle_bool_iff in E. lra.
Qed.

Lemma C4_witness :
  let w := run (start 799 1000 "normal") [KeyDown "d"; KeyDown "s"] in
  tubeX (env w) = (4 # 5) * innerWidth (env w)
  ∧ (1 <= tubeX (env w) → x (me (exec update_body w)) = tubeX (env w) - 1)
  ∧ (tubeX (env w) < 1 → x (me (exec update_body w)) = 1).
Proof.
  apply (C4_tube_clamp (run (start 799 1000 "normal") [KeyDown "d"; KeyDown "s"])
           (exec moveAndJump
              (run (start 799 1000 "normal") [KeyDown "d"; KeyDown "s"]))).
  - vm_compute. reflexivity.
  - vm_compute. discriminate.
  - vm_compute. discriminate.
Defined.

(** C4, as stated, fails on a screen narrower than 1.25: with
    [width = 1] and the player at [x = 1], no key held, [x] lies in
    [0.8, 1] after the moves, the tube clamp stores [-0.2], and the
    left-boundary clamp then stores 1, so the frame ends with [x = 1]
    and not [0.8 * width - 1]. *)
Lemma C4_counterexample :
  let w := start 1 1 "normal" in
  completion moveAndJump w = Normal tt
  ∧ tubeX (env w) <= x (me (exec moveAndJump w))
  ∧ x (me (exec moveAndJump w)) <= innerWidth (env w)
  ∧ x (me (exec update_body w)) = 1
  ∧ ¬ x (me (exec update_body w)) == (4 # 5) * innerWidth (env w) - 1.
Proof. vm_compute. split_and!; done. Qed.

(** ** The dash *)

Lemma constructor_speeds c data e :
  moveSpeed (me (constructor c data e)) = speed (me (constructor c data e)) * 3.
Proof. reflexivity. Qed.

Lemma fireTimer_speeds (i : nat) (w : World) : speeds (fireTimer i w) = speeds w.
Proof.
  unfold fireTimer. destruct (timers w !! i) as [[ms []]|]; reflexivity.
Qed.

(** No turn of the host loop writes [speed] or [moveSpeed]. *)
Lemma step_speeds (w : World) (ev : Event) : speeds (step w ev) = speeds w.
Proof.
  destruct ev as [key|key| |tp|i|]; cbn.
  - case_match; [apply handleKeyDown_speeds | done].
  - case_match; [apply handleKeyUp_speeds | done].
  - apply update_body_speeds.
  - apply collide_speeds.
  - apply fireTimer_speeds.
  - unfold resumeDeath. by case_match.
Qed.

Lemma run_speeds (evs : list Event) (w : World) : speeds (run w evs) = speeds w.
Proof.
  revert w. induction evs as [|ev evs IH]; intros w; [done|].
  cbn. fold (run (step w ev) evs). rewrite IH. apply step_speeds.
Qed.

(** C3, as amended. [moveSpeed] is assigned [speed * 3] at construction
    and no turn of the host loop changes it or [speed]. In a frame the
    left rule stores [x - v] when the left key is active and leftward
    movement is permitted, then the right rule stores [x + v] when the
    right key is active and rightward movement is permitted, where [v]
    is [moveSpeed] when the dash key is active and [speed] otherwise:
    the lateral rules leave [lateralX]. A frame that completes ends at
    the clamped value of that [x]: [0.8 * width - 1] (or 1 when that is
    negative) when the tube clamp fires, 1 when the [x] of the rules is
    negative; a frame in which no clamp fires, or in which the jump check
    raises, ends at the [x] of the rules. *)
Theorem C3_dash_speed_rule (c : Character)
    (data : gmap string (option Animation)) (e : GameEnv) (evs : list Event)
    (w : World) :
  let v := if isActiveAnimation "s" (me w) then moveSpeed (me w) else speed (me w) in
  let x' := x (me (exec update_body w)) in
  (moveSpeed (me (constructor c data e)) = speed (me (constructor c data e)) * 3
   ∧ moveSpeed (me (run (constructor c data e) evs)) = c_speed c * 3
   ∧ speed (me (run (constructor c data e) evs)) = c_speed c)
  ∧ (x (me (moveLateral w)) = lateralX (me w)
     ∧ (isActiveAnimation "a" (me w) && left (movement (me w)) = true →
        isActiveAnimation "d" (me w) && right (movement (me w)) = false →
        lateralX (me w) = x (me w) - v)
     ∧ (isActiveAnimation "a" (me w) && left (movement (me w)) = false →
        isActiveAnimation "d" (me w) && right (movement (me w)) = true →
        lateralX (me w) = x (me w) + v))
  ∧ ((completion update_body w = Normal tt →
      x' = clampedX (env w) (lateralX (me w)))
     ∧ (completion update_body w = TypeError → x' = lateralX (me w))
     ∧ (unclamped w → x' = lateralX (me w))
     ∧ (completion update_body w = Normal tt →
        tubeX (env w) <= lateralX (me w) →
        lateralX (me w) <= innerWidth (env w) →
        x' = if Qltb (tubeX (env w) - 1) 0 then 1 else tubeX (env w) - 1)
     ∧ (completion update_body w = Normal tt →
        lateralX (me w) < 0 → x' = 1)).
Proof.
  cbv zeta.
  pose proof (run_speeds evs (constructor c data e)) as Hr.
  unfold speeds in Hr. injection Hr as -> ->.
  assert (Hl : x (me (moveLateral w)) = lateralX (me w))
    by (by rewrite moveLateral_x).
  pose proof (update_body_x w) as Hx.
  split_and!; try reflexivity; try exact Hl.
  - intros Ha Hd. unfold lateralX, lateralSpeed. by rewrite Ha, Hd.
  - intros Ha Hd. unfold lateralX, lateralSpeed. by rewrite Ha, Hd.
  - intros Hc. by rewrite Hc in Hx.
  - intros Hc. by rewrite Hc in Hx.
  - intros Hu. rewrite <- Hl. by apply update_body_unclamped.
  - intros Hc Hlo Hhi. rewrite Hc in Hx. rewrite Hx. unfold clampedX, Qleb.
    apply Qle_bool_iff in Hlo, Hhi. by rewrite Hlo, Hhi.
  - intros Hc Hneg. rewrite Hc in Hx. rewrite Hx. unfold clampedX.
    destruct (Qleb (tubeX (env w)) (lateralX (me w))
              && Qleb (lateralX (me w)) (innerWidth (env w))) eqn:Ht; cbn.
    + apply andb_true_iff in Ht as [Ht _]. apply Qle_bool_iff in Ht.
      assert (Hn : Qltb (tubeX (env w) - 1) 0 = true) by (apply Qltb_lt; lra).
      by rewrite Hn.
    + apply Qltb_lt in Hneg. by rewrite Hneg.
Qed.

Lemma C3_witness :
  let c := sampleCharacter 100 300 300 1 in
  let e := sampleEnv 1000 "normal" in
  let evs := [KeyDown "d"; Frame; KeyUp "d"] in
  let w := run (start 100 1000 "normal") [KeyDown "d"; KeyDown "s"] in
  (isActiveAnimation "a" (me w) && left (movement (me w)) = false
   ∧ isActiveAnimation "d" (me w) && right (movement (me w)) = true
   ∧ isActiveAnimation "s" (me w) = true
   ∧ completion update_body w = Normal tt)
  ∧ moveSpeed (me (run (constructor c sampleData e) evs)) = c_speed c * 3
  ∧ lateralX (me w) = x (me w) + moveSpeed (me w)
  ∧ x (me (exec update_body w)) = clampedX (env w) (lateralX (me w)).
Proof.
  destruct (C3_dash_speed_rule (sampleCharacter 100 300 300 1) sampleData
              (sampleEnv 1000 "normal") [KeyDown "d"; Frame; KeyUp "d"]
              (run (start 100 1000 "normal") [KeyDown "d"; KeyDown "s"]))
    as ((_ & Hs & _) & (_ & _ & Hr) & (Hn & _)).
  split_and!; [reflexivity | reflexivity | reflexivity | reflexivity
              | exact Hs | apply Hr; reflexivity | apply Hn; reflexivity].
Defined.

(** C3, as stated, fails when a clamp fires: at [x = 2] with [speed = 1],
    the left key active and leftward movement permitted, a frame without
    the dash ends at [x = 1], and a frame with the dash computes [-1],
    which the left-boundary clamp turns into 1; both displacements are
    [-1], not one three times the other. *)
Lemma C3_counterexample :
  let wd := run (start 2 1000 "normal") [KeyDown "a"; KeyDown "s"] in
  let wn := run (start 2 1000 "normal") [KeyDown "a"] in
  sameButDash wd wn
  ∧ isActiveAnimation "a" (me wd) = true
  ∧ left (movement (me wd)) = true
  ∧ x (me (step wd Frame)) - x (me wd) == -1
  ∧ x (me (step wn Frame)) - x (me wn) == -1
  ∧ ¬ x (me (step wd Frame)) - x (me wd)
      == 3 * (x (me (step wn Frame)) - x (me wn)).
Proof. vm_compute. split_and!; done. Qed.

(** ** The jump *)

Lemma setAnimation_raises (key : string) (w : World) :
  js_get key (playerData (me w)) = None →
  completion (setAnimation key) w = TypeError.
Proof.
  intros Ha. unfold completion, setAnimation, bind, read, act. cbn.
  rewrite Ha. by destruct (isKeyActionLeft key), (isKeyActionRight key).
Qed.

(** When the jump check returns and when it raises. *)
Lemma isActiveGravityAnimation_completion (key : string) (w : World) :
  completion (isActiveGravityAnimation key) w
  = if grounded (me w) then
      match js_get (directionKey (me w)) (playerData (me w)) with
      | Some _ => Normal (isActiveAnimation key (me w))
      | None => TypeError
      end
    else Normal false.
Proof.
  unfold completion, isActiveGravityAnimation, bind, read, when. cbn.
  destruct (grounded (me w)); cbn.
  - destruct (js_get (directionKey (me w)) (playerData (me w))) as [a|] eqn:Ha.
    + pose proof (setAnimation_normal _ _ _ Ha) as Hn. unfold completion in Hn.
      destruct (setAnimation _ w) as [[[]|] w']; [|discriminate].
      cbn. by rewrite andb_true_r.
    + pose proof (setAnimation_raises _ _ Ha) as Hn. unfold completion in Hn.
      by destruct (setAnimation _ w) as [[[]|] w'].
  - by rewrite andb_false_r.
Qed.

(** The jump check does not look at [x] or at the environment. *)
Lemma isActiveGravityAnimation_moved (key : string) (f : GameEnv → GameEnv)
    (x' : Q) (w : World) :
  completion (isActiveGravityAnimation key) (with_env f (with_me (set_x x') w))
  = completion (isActiveGravityAnimation key) w.
Proof. by rewrite !isActiveGravityAnimation_completion. Qed.

Lemma clamps_y (w : World) : y (me (leftClamp (tubeClamp w))) = y (me w).
Proof. unfold leftClamp, tubeClamp. by repeat case_match. Qed.

(** A frame in which the jump check fires. *)
Lemma jump_fires (w : World) :
  completion (isActiveGravityAnimation "w") w = Normal true →
  y (me (exec update_body w))
  = if gravityEnabled (me w)
    then y (me w) - bottom (me w) * jumpFraction (difficulty (env w))
    else if negb (down (movement (me w)))
         then y (me w) - bottom (me w) * (3 # 20)
         else y (me w).
Proof.
  intros Hf. unfold exec. rewrite update_body_unfold, moveAndJump_unfold, before_jump.
  destruct (moveLateral_eq w) as (x' & -> & _).
  rewrite <- (isActiveGravityAnimation_moved "w"
                (set_PlayerPosition (x (me w)) (y (me w))) x' w) in Hf.
  pose proof (isActiveGravityAnimation_outside "w"
    (with_env (set_PlayerPosition (x (me w)) (y (me w))) (with_me (set_x x') w)))
    as Ho.
  unfold jump, bind, completion, exec, outsideAnimation in *.
  destruct (isActiveGravityAnimation "w" _) as [[fired|] w2]; [|discriminate].
  cbn in Hf. injection Hf as ->. cbn in Ho.
  injection Ho as _ Hy Hb _ Hg _ _ _ _ Hm _ _ He _ _ _ _.
  cbn. rewrite clamps_y. unfold jumpImpulse. cbn.
  rewrite Hg, Hm, He.
  destruct (gravityEnabled (me w)), (down (movement (me w))); cbn;
    by rewrite ?Hy, ?Hb.
Qed.

(** The jump check fires when the up key is latched, the player is not
    idle, it is grounded or [movement.down] is false, and the facing has a
    descriptor for the animation the check sets. *)
Lemma jumpFires_iff (w : World) :
  jumpFires w
  ↔ js_has "w" (pressedKeys (me w)) = true
    ∧ isIdle (me w) = false
    ∧ (Qleb (bottom (me w)) (y (me w)) = true ∨ down (movement (me w)) = false)
    ∧ is_Some (js_get (directionKey (me w)) (playerData (me w))).
Proof.
  unfold jumpFires. rewrite isActiveGravityAnimation_completion. split.
  - intros H. destruct (grounded (me w)) eqn:G; [|discriminate].
    destruct (js_get _ _) as [a|] eqn:J; [|discriminate].
    injection H as H. unfold isActiveAnimation in H.
    apply andb_true_iff in H as [H1 H2]. apply negb_true_iff in H2.
    unfold grounded in G. apply orb_true_iff in G as [G|G%negb_true_iff];
      split_and!; eauto.
  - intros (H1 & H2 & H3 & [a Ha]). rewrite Ha.
    unfold grounded, isActiveAnimation. rewrite H1, H2.
    destruct H3 as [-> | ->]; cbn; by rewrite ?orb_true_r.
Qed.

(** C2, as amended. In a frame in which the jump check fires with gravity
    enabled, [y] is assigned [y - bottom * 0.50] on easy,
    [y - bottom * 0.40] on normal and [y - bottom * 0.30] on hard, the
    fraction applied being larger on easy than on normal and on normal
    than on hard; with gravity disabled and [movement.down] false, [y] is
    assigned [y - bottom * 0.15]. *)
Theorem C2_jump_height (we wn wh wp : World) :
  jumpFires we → jumpFires wn → jumpFires wh → jumpFires wp →
  gravityEnabled (me we) = true →
  gravityEnabled (me wn) = true →
  gravityEnabled (me wh) = true →
  difficulty (env we) = "easy" →
  difficulty (env wn) = "normal" →
  difficulty (env wh) = "hard" →
  bottom (me wn) = bottom (me we) →
  bottom (me wh) = bottom (me we) →
  gravityEnabled (me wp) = false →
  down (movement (me wp)) = false →
  let b := bottom (me we) in
  y (me (exec update_body we)) = y (me we) - b * (1 # 2)
  ∧ y (me (exec update_body wn)) = y (me wn) - b * (2 # 5)
  ∧ y (me (exec update_body wh)) = y (me wh) - b * (3 # 10)
  ∧ (jumpFraction (difficulty (env wh)) < jumpFraction (difficulty (env wn))
     ∧ jumpFraction (difficulty (env wn)) < jumpFraction (difficulty (env we)))
  ∧ y (me (exec update_body wp)) = y (me wp) - bottom (me wp) * (3 # 20).
Proof.
  intros Fe Fn Fh Fp Ge Gn Gh De Dn Dh Bn Bh Gp Mp b.
  split_and!.
  - rewrite (jump_fires we Fe), Ge, De. reflexivity.
  - rewrite (jump_fires wn Fn), Gn, Dn, Bn. reflexivity.
  - rewrite (jump_fires wh Fh), Gh, Dh, Bh. reflexivity.
  - rewrite Dh, Dn. reflexivity.
  - rewrite Dn, De. reflexivity.
  - rewrite (jump_fires wp Fp), Gp, Mp. reflexivity.
Qed.

Lemma C2_witness :
  let we := run (start 100 1000 "easy") [KeyDown "w"] in
  let wn := run (start 100 1000 "normal") [KeyDown "w"] in
  let wh := run (start 100 1000 "hard") [KeyDown "w"] in
  let wp := run (start 100 1000 "normal")
              [Collision (contact "jumpPlatform" false false false true);
               KeyDown "w"] in
  let b := bottom (me we) in
  y (me (exec update_body we)) = y (me we) - b * (1 # 2)
  ∧ y (me (exec update_body wn)) = y (me wn) - b * (2 # 5)
  ∧ y (me (exec update_body wh)) = y (me wh) - b * (3 # 10)
  ∧ (jumpFraction (difficulty (env wh)) < jumpFraction (difficulty (env wn))
     ∧ jumpFraction (difficulty (env wn)) < jumpFraction (difficulty (env we)))
  ∧ y (me (exec update_body wp)) = y (me wp) - bottom (me wp) * (3 # 20).
Proof.
  apply (C2_jump_height
           (run (start 100 1000 "easy") [KeyDown "w"])
           (run (start 100 1000 "normal") [KeyDown "w"])
           (run (start 100 1000 "hard") [KeyDown "w"])
           (run (start 100 1000 "normal")
              [Collision (contact "jumpPlatform" false false false true);
               KeyDown "w"]));
    vm_compute; reflexivity.
Defined.

(** C2, as stated, fails at [bottom = 0]: the jump check fires with
    gravity enabled on easy, on normal and on hard, [y] decreases by 0
    on each, and the decrease on easy is not larger than on normal, nor
    the one on normal larger than on hard. *)
Lemma C2_counterexample :
  let at_top (diff : string) :=
    run (constructor (sampleCharacter 100 0 0 1) sampleData (sampleEnv 1000 diff))
        [KeyDown "w"] in
  let we := at_top "easy" in
  let wn := at_top "normal" in
  let wh := at_top "hard" in
  jumpFires we ∧ jumpFires wn ∧ jumpFires wh
  ∧ gravityEnabled (me we) = true
  ∧ gravityEnabled (me wn) = true
  ∧ gravityEnabled (me wh) = true
  ∧ bottom (me we) = 0 ∧ bottom (me wn) = 0 ∧ bottom (me wh) = 0
  ∧ jumpDelta we == 0 ∧ jumpDelta wn == 0 ∧ jumpDelta wh == 0
  ∧ ¬ Qabs (jumpDelta wn) < Qabs (jumpDelta we)
  ∧ ¬ Qabs (jumpDelta wh) < Qabs (jumpDelta wn).
Proof. vm_compute. split_and!; done. Qed.

(** ** Rounding *)

(** In binary64 [0.1 * 3] is not [0.3], and from [x = 100] a dash frame
    at [speed = 0.1] does not move three times as far as a walking
    frame. *)
Lemma binary64_dash_not_triple :
  (moveSpeed64 0.1 =? 0.3)%float = false
  ∧ (movedRight64 100 (moveSpeed64 0.1) - 100
     =? 3 * (movedRight64 100 0.1 - 100))%float = false.
Proof. split; vm_compute; reflexivity. Qed.

(** In binary64, at [y = 7] and [bottom = 7] the decrease of a jump on
    normal is not [bottom * 0.40], and the decreases on easy and on
    normal are not in the ratio of [0.50] to [0.40]. *)
Lemma binary64_jump_not_proportional :
  (7 - jumped64 7 7 0.40 =? 7 * 0.40)%float = false
  ∧ ((7 - jumped64 7 7 0.50) * 0.40
     =? (7 - jumped64 7 7 0.40) * 0.50)%float = false.
Proof. split; vm_compute; reflexivity. Qed.

(** In binary64, at [y = 2^60] and [bottom = 100] a jump leaves [y] where
    it was on every difficulty: the three decreases are 0 although
    [bottom] is not. *)
Lemma binary64_jump_absorbed :
  let y := 1152921504606846976%float in
  (jumped64 y 100 0.50 =? y)%float = true
  ∧ (jumped64 y 100 0.40 =? y)%float = true
  ∧ (jumped64 y 100 0.30 =? y)%float = true.
Proof. split_and!; vm_compute; reflexivity. Qed.

(** In binary64 the left rule followed by the right rule need not give
    [x] back: from [x = 0.1] at speed 1 it does not. *)
Lemma binary64_opposite_moves :
  (movedRight64 (movedLeft64 0.1 1) 1 =? 0.1)%float = false.
Proof. vm_compute. reflexivity. Qed.

(** In binary64 three platform jumps from [y = 100] with [bottom = 7] do
    not end at [100 - 3 * (7 * 0.15)]. *)
Lemma binary64_platform_jumps :
  (jumped64 (jumped64 (jumped64 100 7 0.15) 7 0.15) 7 0.15
   =? 100 - 3 * (7 * 0.15))%float = false.
Proof. vm_compute. reflexivity. Qed.

(** * Further properties of the controller *)

(** ** Preserved properties *)

Section Preserved.
Context (P : World → Prop).

Lemma preserved_ret {B} (b : B) : preserved P (ret b).
Proof. by intros w. Qed.

Lemma preserved_throw {B} : preserved P (@throw B).
Proof. by intros w. Qed.

Lemma preserved_read {B} (f : World → B) : preserved P (read f).
Proof. by intros w. Qed.

Lemma preserved_act (f : World → World) : (∀ w, P w → P (f w)) → preserved P (act f).
Proof. intros H w. apply H. Qed.

Lemma preserved_bind {B C} (m : Js B) (k : B → Js C) :
  preserved P m → (∀ b, preserved P (k b)) → preserved P (bind m k).
Proof.
  intros Hm Hk w Hw. unfold exec, bind. specialize (Hm w Hw). unfold exec in Hm.
  destruct (m w) as [[b|] w1]; cbn in *; [|done].
  by apply Hk.
Qed.

Lemma preserved_when (b : bool) (m : Js unit) : preserved P m → preserved P (when b m).
Proof. intros H. destruct b; [done|]. apply preserved_ret. Qed.
End Preserved.

(** [descend leaf] follows the structure of a method down to its leaves and
    runs [leaf] on each world transformer. *)
Ltac descend_step leaf :=
  match goal with
  | |- preserved _ (bind _ _) => apply preserved_bind; [| intros ?]
  | |- preserved _ (ret _) => apply preserved_ret
  | |- preserved _ throw => apply preserved_throw
  | |- preserved _ (read _) => apply preserved_read
  | |- preserved _ (when _ _) => apply preserved_when
  | |- preserved _ (act _) => apply preserved_act; leaf
  | |- preserved _ (if ?b then _ else _) => destruct b eqn:?
  | |- preserved _ (match ?o with Some _ => _ | None => _ end) => destruct o
  | |- preserved _ (match ?o with true => _ | false => _ end) => destruct o
  | |- preserved _ (setAnimation _) => unfold setAnimation
  | |- preserved _ (isActiveGravityAnimation _) => unfold isActiveGravityAnimation
  | |- preserved _ jump => unfold jump
  | |- preserved _ moveAndJump => unfold moveAndJump
  | |- preserved _ update_body => unfold update_body
  | |- preserved _ (handleKeyDown _) => unfold handleKeyDown
  | |- preserved _ (handleKeyUp _) => unfold handleKeyUp
  | |- preserved _ (assignInvincible _) => unfold assignInvincible
  | |- preserved _ enemyReaction => unfold enemyReaction
  | |- preserved _ platformReaction => unfold platformReaction
  | |- preserved _ collisionAction => unfold collisionAction
  | |- preserved _ (collide _) => unfold collide
  end.

Ltac descend leaf := repeat descend_step leaf.

Ltac open_leaf :=
  unfold publishPosition, moveLateral, moveLeft, moveRight, jumpImpulse, tubeClamp,
    leftClamp, tubeReaction, permitLateral, fallOffEdge, deathSequence, touch,
    setFrameX, setFrameY, setMinFrame, setMaxFrame.

(** ** [setAnimation], exactly *)

(** The facing and the table after [setAnimation(key)], whether it
    returns or raises. *)
Lemma setAnimation_facing (key : string) (w : World) :
  directionKey (me (exec (setAnimation key) w))
  = facingAfter key (directionKey (me w))
  ∧ playerData (me (exec (setAnimation key) w))
    = tableAfter key (playerData (me w)).
Proof.
  unfold exec, setAnimation, bind, read, act, facingAfter, tableAfter. cbn.
  destruct (js_get key (playerData (me w))) as [a|]; cbn;
    destruct (isKeyActionLeft key), (isKeyActionRight key); cbn;
    repeat (case_match; cbn); done.
Qed.

Lemma setAnimation_completion (key : string) (w : World) :
  completion (setAnimation key) w
  = match js_get key (playerData (me w)) with
    | Some _ => Normal tt
    | None => TypeError
    end.
Proof.
  destruct (js_get key (playerData (me w))) as [a|] eqn:Ha.
  - by apply setAnimation_normal in Ha.
  - by apply setAnimation_raises.
Qed.

Lemma tableAfter_other (key k : string) (pd : gmap string (option Animation)) :
  k ≠ "w" → tableAfter key pd !! k = pd !! k.
Proof.
  intros Hk. unfold tableAfter.
  repeat case_match; by rewrite ?lookup_insert_ne.
Qed.

Lemma js_has_insert_mono {V} (k j : string) (v : option V)
    (obj : gmap string (option V)) :
  js_has k obj = true → js_has k (<[j := v]> obj) = true.
Proof.
  unfold js_has. destruct (decide (j = k)) as [->|Hne].
  - by rewrite lookup_insert_eq.
  - by rewrite lookup_insert_ne.
Qed.

Lemma tableAfter_mono (key k : string) (pd : gmap string (option Animation)) :
  js_has k pd = true → js_has k (tableAfter key pd) = true.
Proof.
  intros H. unfold tableAfter. repeat case_match; by try apply js_has_insert_mono.
Qed.

Lemma tableAfter_get (key : string) (pd : gmap string (option Animation)) :
  js_get key (tableAfter key pd) = js_get key pd.
Proof.
  unfold tableAfter, js_get, isKeyActionLeft, isKeyActionRight.
  destruct (String.eqb_spec key "a") as [->|Ha]; [by rewrite lookup_insert_ne|].
  destruct (String.eqb_spec key "d") as [->|Hd]; [by rewrite lookup_insert_ne|].
  done.
Qed.

(** ** The key handlers, exactly *)

(** [setAnimation] on a key that has a descriptor. *)
Lemma setAnimation_ok (key : string) (w : World) (a : Animation) :
  js_get key (playerData (me w)) = Some a →
  ∃ w', setAnimation key w = (Normal tt, w')
        ∧ outsideAnimation w' = outsideAnimation w
        ∧ directionKey (me w') = facingAfter key (directionKey (me w))
        ∧ playerData (me w') = tableAfter key (playerData (me w)).
Proof.
  intros Ha.
  pose proof (setAnimation_normal key w a Ha) as Hn.
  pose proof (setAnimation_outside key w) as Ho.
  destruct (setAnimation_facing key w) as [Hf Ht].
  unfold completion, exec in *.
  destruct (setAnimation key w) as [[[]|] w']; [|discriminate].
  by exists w'.
Qed.

Lemma outsideAnimation_keys (w w' : World) :
  outsideAnimation w' = outsideAnimation w →
  pressedKeys (me w') = pressedKeys (me w) ∧ isIdle (me w') = isIdle (me w).
Proof.
  unfold outsideAnimation.
  intros [= _ _ _ _ _ _ _ _ -> _ -> _ _ _ _ _ _]. done.
Qed.

(** A key-down for a key that has a descriptor: the key is latched and
    the player becomes active, unless the key was latched already. *)
Lemma handleKeyDown_keys (key : string) (w : World) (a : Animation) :
  js_get key (playerData (me w)) = Some a →
  let w' := exec (handleKeyDown key) w in
  completion (handleKeyDown key) w = Normal tt
  ∧ pressedKeys (me w')
    = (if js_has key (pressedKeys (me w)) then pressedKeys (me w)
       else <[key := Some a]> (pressedKeys (me w)))
  ∧ isIdle (me w')
    = (if js_has key (pressedKeys (me w)) then isIdle (me w) else false)
  ∧ directionKey (me w')
    = (if js_has key (pressedKeys (me w)) then directionKey (me w)
       else facingAfter key (directionKey (me w)))
  ∧ playerData (me w')
    = (if js_has key (pressedKeys (me w)) then playerData (me w)
       else tableAfter key (playerData (me w))).
Proof.
  intros Ha. unfold completion, exec, handleKeyDown, bind, read, when, act. cbn.
  rewrite (js_get_has _ _ _ Ha).
  destruct (js_has key (pressedKeys (me w))); cbn.
  - destruct (isKeyActionDash key); cbn;
      destruct (isKeyActionLeft key && Qltb 2 (x (me w))); cbn; try done;
      destruct (isKeyActionRight key); done.
  - edestruct (setAnimation_ok key) as (w' & -> & Ho & Hf & Ht); [exact Ha|].
    destruct (outsideAnimation_keys _ _ Ho) as [Hp Hi].
    cbn in Hp, Hi, Hf, Ht. rewrite Ha in Hp.
    destruct (isKeyActionDash key); cbn;
      destruct (isKeyActionLeft key && Qltb 2 (x (me w'))); cbn;
      try (by rewrite Hp, Hf, Ht);
      destruct (isKeyActionRight key); cbn; by rewrite Hp, Hf, Ht.
Qed.

(** A key-up for a key that has a descriptor: the key leaves the latch
    and the player becomes idle. *)
Lemma handleKeyUp_keys (key : string) (w : World) (a : Animation) :
  js_get key (playerData (me w)) = Some a →
  let w' := exec (handleKeyUp key) w in
  completion (handleKeyUp key) w = Normal tt
  ∧ pressedKeys (me w') = delete key (pressedKeys (me w))
  ∧ isIdle (me w') = true
  ∧ directionKey (me w') = facingAfter key (directionKey (me w))
  ∧ playerData (me w') = tableAfter key (playerData (me w)).
Proof.
  intros Ha. unfold completion, exec, handleKeyUp, bind, read, when, act. cbn.
  rewrite (js_get_has _ _ _ Ha).
  destruct (js_has key (pressedKeys (me w))) eqn:Hl; cbn;
    (edestruct (setAnimation_ok key) as (w' & -> & Ho & Hf & Ht); [exact Ha|]);
    destruct (outsideAnimation_keys _ _ Ho) as [Hp Hi];
    cbn in Hp, Hi, Hf, Ht;
    destruct (isKeyActionDash key); cbn;
    destruct (isKeyActionLeft key || isKeyActionRight key || _); cbn;
    rewrite Hp, Hf, Ht; split_and!; try done.
  all: unfold js_has in Hl; destruct (pressedKeys (me w) !! key) eqn:E;
    try discriminate; by rewrite delete_id.
Qed.

(** X1. Pressing and then releasing a key that has a descriptor leaves
    the latch as it was without that key, and the player idle. *)
Theorem press_then_release (w : World) (key : string) (a : Animation) :
  js_get key (playerData (me w)) = Some a →
  let w' := exec (handleKeyUp key) (exec (handleKeyDown key) w) in
  pressedKeys (me w') = delete key (pressedKeys (me w))
  ∧ pressedKeys (me w') !! key = None
  ∧ isIdle (me w') = true.
Proof.
  intros Ha. cbv zeta.
  destruct (handleKeyDown_keys key w a Ha) as (_ & Hp & _ & _ & Ht).
  assert (Ha' : js_get key (playerData (me (exec (handleKeyDown key) w))) = Some a).
  { rewrite Ht. case_match; [done|]. by rewrite tableAfter_get. }
  destruct (handleKeyUp_keys key _ a Ha') as (_ & Hp' & Hi' & _ & _).
  assert (Hd : pressedKeys (me (exec (handleKeyUp key) (exec (handleKeyDown key) w)))
               = delete key (pressedKeys (me w))).
  { rewrite Hp', Hp. case_match; [done|]. by rewrite delete_insert_eq. }
  split_and!; [done | | done].
  rewrite Hd. apply lookup_delete_eq.
Qed.

Lemma press_then_release_witness :
  let w := run (start 100 1000 "normal") [KeyDown "d"] in
  let w' := exec (handleKeyUp "s") (exec (handleKeyDown "s") w) in
  pressedKeys (me w') = delete "s" (pressedKeys (me w))
  ∧ pressedKeys (me w') !! "s" = None
  ∧ isIdle (me w') = true.
Proof.
  apply (press_then_release (run (start 100 1000 "normal") [KeyDown "d"]) "s"
           (mkAnimation 3 15 None)).
  vm_compute. reflexivity.
Defined.

(** X2. Releasing any key that has a descriptor stops the player even
    while other keys stay latched: no key drives an animation any more,
    and the lateral rules of the next frame move nothing. *)
Theorem release_stops_movement (w : World) (key : string) (a : Animation) :
  js_get key (playerData (me w)) = Some a →
  let w' := exec (handleKeyUp key) w in
  (∀ k, k ≠ key → pressedKeys (me w') !! k = pressedKeys (me w) !! k)
  ∧ (∀ k, isActiveAnimation k (me w') = false)
  ∧ moveLateral w' = w'.
Proof.
  intros Ha. cbv zeta.
  destruct (handleKeyUp_keys key w a Ha) as (_ & Hp & Hi & _ & _).
  assert (Hk : ∀ k, isActiveAnimation k (me (exec (handleKeyUp key) w)) = false).
  { intros k. unfold isActiveAnimation. rewrite Hi. apply andb_false_r. }
  split_and!.
  - intros k Hne. rewrite Hp. by apply lookup_delete_ne.
  - exact Hk.
  - unfold moveLateral, moveLeft. rewrite Hk. unfold moveRight. by rewrite Hk.
Qed.

Lemma release_stops_movement_witness :
  let w := run (start 100 1000 "normal") [KeyDown "d"; KeyDown "s"] in
  let w' := exec (handleKeyUp "s") w in
  (∀ k, k ≠ "s" → pressedKeys (me w') !! k = pressedKeys (me w) !! k)
  ∧ (∀ k, isActiveAnimation k (me w') = false)
  ∧ moveLateral w' = w'.
Proof.
  apply (release_stops_movement
           (run (start 100 1000 "normal") [KeyDown "d"; KeyDown "s"]) "s"
           (mkAnimation 3 15 None)).
  vm_compute. reflexivity.
Defined.

(** X3. A key-down for a key that is latched already, as a held key
    repeats it, returns and changes neither the latch, nor idleness, nor
    the facing, nor the descriptor table: a key held through the release
    of another one does not make the player active again. *)
Theorem repeated_key_down (w : World) (key : string) :
  js_has key (pressedKeys (me w)) = true →
  let w' := exec (handleKeyDown key) w in
  completion (handleKeyDown key) w = Normal tt
  ∧ pressedKeys (me w') = pressedKeys (me w)
  ∧ isIdle (me w') = isIdle (me w)
  ∧ directionKey (me w') = directionKey (me w)
  ∧ playerData (me w') = playerData (me w)
  ∧ physics w' = physics w.
Proof.
  intros Hl. unfold completion, exec, handleKeyDown, bind, read, when, act. cbn.
  destruct (js_has key (playerData (me w))); cbn; [|done].
  rewrite Hl. cbn.
  destruct (isKeyActionDash key); cbn;
    destruct (isKeyActionLeft key && Qltb 2 (x (me w))); cbn; try done;
    destruct (isKeyActionRight key); done.
Qed.

Lemma repeated_key_down_witness :
  let w := run (start 100 1000 "normal") [KeyDown "d"; KeyDown "s"; KeyUp "s"] in
  let w' := exec (handleKeyDown "d") w in
  completion (handleKeyDown "d") w = Normal tt
  ∧ pressedKeys (me w') = pressedKeys (me w)
  ∧ isIdle (me w') = isIdle (me w)
  ∧ directionKey (me w') = directionKey (me w)
  ∧ playerData (me w') = playerData (me w)
  ∧ physics w' = physics w.
Proof.
  apply (repeated_key_down
           (run (start 100 1000 "normal") [KeyDown "d"; KeyDown "s"; KeyUp "s"]) "d").
  vm_compute. reflexivity.
Defined.

(** ** Invariants of the controller *)

Lemma fireTimer_me_tables (i : nat) (w : World) :
  pressedKeys (me (fireTimer i w)) = pressedKeys (me w)
  ∧ playerData (me (fireTimer i w)) = playerData (me w)
  ∧ directionKey (me (fireTimer i w)) = directionKey (me w).
Proof.
  unfold fireTimer. by destruct (timers w !! i) as [[ms []]|].
Qed.

Lemma resumeDeath_me_tables (w : World) :
  pressedKeys (me (resumeDeath w)) = pressedKeys (me w)
  ∧ playerData (me (resumeDeath w)) = playerData (me w)
  ∧ directionKey (me (resumeDeath w)) = directionKey (me w).
Proof. unfold resumeDeath. by destruct (awaiting w). Qed.

(** *** The descriptor table *)

Ltac leaf_entry :=
  let w := fresh "w" in
  let H := fresh "H" in
  intros w H; open_leaf; repeat case_match; cbn;
  rewrite ?lookup_insert_ne by congruence; exact H.

Lemma step_entry (k : string) (v : option (option Animation)) (w : World) (ev : Event) :
  k ≠ "w" →
  playerData (me w) !! k = v → playerData (me (step w ev)) !! k = v.
Proof.
  intros Hk. revert w.
  destruct ev as [key|key| |tp|i|]; intros w; cbn.
  - case_match; [|done].
    assert (Hp : preserved (fun w => playerData (me w) !! k = v) (handleKeyDown key))
      by descend leaf_entry.
    apply Hp.
  - case_match; [|done].
    assert (Hp : preserved (fun w => playerData (me w) !! k = v) (handleKeyUp key))
      by descend leaf_entry.
    apply Hp.
  - assert (Hp : preserved (fun w => playerData (me w) !! k = v) update_body)
      by descend leaf_entry.
    apply Hp.
  - assert (Hp : preserved (fun w => playerData (me w) !! k = v) (collide tp))
      by descend leaf_entry.
    apply Hp.
  - by destruct (fireTimer_me_tables i w) as (_ & -> & _).
  - by destruct (resumeDeath_me_tables w) as (_ & -> & _).
Qed.

(** X6. Whatever happens, the controller writes the descriptor table it
    was given at the key of the jump only: every other entry is, after
    any run of the host loop, the one it was before. *)
Theorem table_written_at_jump_only (w : World) (evs : list Event) (k : string) :
  k ≠ "w" →
  playerData (me (run w evs)) !! k = playerData (me w) !! k.
Proof.
  intros Hk. revert w. induction evs as [|ev evs IH]; intros w; [done|].
  cbn. fold (run (step w ev) evs). rewrite IH. by apply step_entry.
Qed.

Lemma table_written_at_jump_only_witness :
  let w := start 100 1000 "normal" in
  let evs := [KeyDown "a"; Frame; KeyUp "a"; KeyDown "w"; Frame] in
  playerData (me (run w evs)) !! "wa" = playerData (me w) !! "wa".
Proof.
  apply (table_written_at_jump_only (start 100 1000 "normal")
           [KeyDown "a"; Frame; KeyUp "a"; KeyDown "w"; Frame] "wa").
  discriminate.
Defined.

Ltac leaf_known :=
  let w := fresh "w" in
  let H := fresh "H" in
  intros w H; open_leaf; repeat case_match; cbn;
  try (apply js_has_insert_mono); exact H.

(** A key of the table stays a key of the table. *)
Lemma step_known (k : string) (w : World) (ev : Event) :
  js_has k (playerData (me w)) = true →
  js_has k (playerData (me (step w ev))) = true.
Proof.
  revert w. destruct ev as [key|key| |tp|i|]; intros w; cbn.
  - case_match; [|done].
    assert (Hp : preserved (fun w => js_has k (playerData (me w)) = true)
                   (handleKeyDown key)) by descend leaf_known.
    apply Hp.
  - case_match; [|done].
    assert (Hp : preserved (fun w => js_has k (playerData (me w)) = true)
                   (handleKeyUp key)) by descend leaf_known.
    apply Hp.
  - assert (Hp : preserved (fun w => js_has k (playerData (me w)) = true)
                   update_body) by descend leaf_known.
    apply Hp.
  - assert (Hp : preserved (fun w => js_has k (playerData (me w)) = true)
                   (collide tp)) by descend leaf_known.
    apply Hp.
  - by destruct (fireTimer_me_tables i w) as (_ & -> & _).
  - by destruct (resumeDeath_me_tables w) as (_ & -> & _).
Qed.

(** *** The latch *)

Lemma js_has_insert_ne {V} (k j : string) (v : option V)
    (obj : gmap string (option V)) :
  j ≠ k → js_has k (<[j := v]> obj) = js_has k obj.
Proof. intros Hne. unfold js_has. by rewrite lookup_insert_ne. Qed.

Lemma js_has_delete_absent {V} (k j : string) (obj : gmap string (option V)) :
  js_has k obj = false → js_has k (delete j obj) = false.
Proof.
  unfold js_has. destruct (decide (j = k)) as [->|Hne].
  - by rewrite lookup_delete_eq.
  - by rewrite lookup_delete_ne.
Qed.

Ltac leaf_absent :=
  let w := fresh "w" in
  let H := fresh "H" in
  intros w H; open_leaf; repeat case_match; cbn;
  rewrite ?js_has_insert_ne by congruence;
  try (apply js_has_delete_absent); exact H.

(** A key-down latches no other key than its own. *)
Lemma handleKeyDown_absent (key k : string) :
  key ≠ k →
  preserved (fun w => js_has k (pressedKeys (me w)) = false) (handleKeyDown key).
Proof. intros Hne. descend leaf_absent. Qed.

(** A key-up latches nothing. *)
Lemma handleKeyUp_absent (key k : string) :
  preserved (fun w => js_has k (pressedKeys (me w)) = false) (handleKeyUp key).
Proof. descend leaf_absent. Qed.

Lemma handleKeyDown_unknown (key : string) (w : World) :
  js_has key (playerData (me w)) = false → handleKeyDown key w = (Normal tt, w).
Proof.
  intros Hk. unfold handleKeyDown, bind, read, when. cbn. by rewrite Hk.
Qed.

Lemma update_body_frameFixed : kept frameFixed update_body.
Proof. kept_tac. Qed.

Lemma collide_inputs (tp : TouchPoints) : kept inputs (collide tp).
Proof. kept_tac. Qed.

Lemma frameFixed_latch (w w' : World) :
  frameFixed w' = frameFixed w → pressedKeys (me w') = pressedKeys (me w).
Proof. unfold frameFixed. by intros [= _ _ _ _ _ -> _ _ _ _ _ _ _ _ _]. Qed.

Lemma inputs_latch (w w' : World) :
  inputs w' = inputs w → pressedKeys (me w') = pressedKeys (me w).
Proof. unfold inputs. by intros [= _ _ _ _ -> _ _ _ _ _ _ _ _ _ _]. Qed.

Lemma step_latched_known (w : World) (ev : Event) :
  latched_known w → latched_known (step w ev).
Proof.
  intros Hi k Hk. apply step_known.
  destruct (js_has k (pressedKeys (me w))) eqn:Hl; [by apply Hi|].
  destruct ev as [key|key| |tp|i|]; cbn in Hk.
  - destruct (listening w); [|congruence].
    destruct (js_has key (playerData (me w))) eqn:Hp.
    + destruct (decide (key = k)) as [->|Hne]; [done|].
      rewrite (handleKeyDown_absent key k Hne w Hl) in Hk. discriminate.
    + unfold exec in Hk. rewrite handleKeyDown_unknown in Hk by done.
      cbn in Hk. congruence.
  - destruct (listening w); [|congruence].
    rewrite (handleKeyUp_absent key k w Hl) in Hk. discriminate.
  - rewrite (frameFixed_latch _ _ (update_body_frameFixed w)) in Hk. congruence.
  - rewrite (inputs_latch _ _ (collide_inputs tp w)) in Hk. congruence.
  - destruct (fireTimer_me_tables i w) as (Hp & _ & _). congruence.
  - destruct (resumeDeath_me_tables w) as (Hp & _ & _). congruence.
Qed.

(** X4. From its construction on, whatever the host loop delivers, every
    key the player holds latched is a key of the descriptor table. *)
Theorem latched_keys_are_known (c : Character)
    (data : gmap string (option Animation)) (e : GameEnv) (evs : list Event) :
  latched_known (run (constructor c data e) evs).
Proof.
  assert (H0 : latched_known (constructor c data e)).
  { intros k Hk. cbn in Hk. unfold js_has in Hk. by rewrite lookup_empty in Hk. }
  revert H0. generalize (constructor c data e).
  induction evs as [|ev evs IH]; intros w Hw; [done|].
  cbn. apply IH. by apply step_latched_known.
Qed.

(** *** The facing *)

Ltac leaf_facing :=
  let w := fresh "w" in
  let H := fresh "H" in
  intros w H; open_leaf; unfold facing_ok in *; repeat case_match; cbn;
  try exact H;
  match goal with
  | E : isKeyActionLeft _ = true |- _ => left; by apply String.eqb_eq
  | E : isKeyActionRight _ = true |- _ => right; by apply String.eqb_eq
  end.

Lemma handleKeyDown_facing_ok key : preserved facing_ok (handleKeyDown key).
Proof. descend leaf_facing. Qed.

Lemma handleKeyUp_facing_ok key : preserved facing_ok (handleKeyUp key).
Proof. descend leaf_facing. Qed.

(** Setting the animation of the facing keeps the facing. *)
Lemma reassert_facing :
  kept (fun w => directionKey (me w))
       (dk <- read (fun w => directionKey (me w)) ;; setAnimation dk).
Proof.
  intros w. unfold exec, bind, read. cbn.
  destruct (setAnimation_facing (directionKey (me w)) w) as [Hf _].
  unfold exec in Hf. rewrite Hf. unfold facingAfter. by case_match.
Qed.

Ltac facing_tac := repeat first [ apply reassert_facing | kept_step ].

Lemma update_body_facing : kept (fun w => directionKey (me w)) update_body.
Proof. facing_tac. Qed.

Lemma collide_facing tp : kept (fun w => directionKey (me w)) (collide tp).
Proof. facing_tac. Qed.

(** X5. The facing is always the left key or the right key, and only key
    events change it: a frame, a collision, a timer and the end of the
    level transition leave it as it was. *)
Theorem facing_left_or_right (c : Character)
    (data : gmap string (option Animation)) (e : GameEnv) (evs : list Event)
    (w : World) (tp : TouchPoints) (i : nat) :
  facing_ok (run (constructor c data e) evs)
  ∧ directionKey (me (step w Frame)) = directionKey (me w)
  ∧ directionKey (me (step w (Collision tp))) = directionKey (me w)
  ∧ directionKey (me (step w (TimerFires i))) = directionKey (me w)
  ∧ directionKey (me (step w TransitionCompletes)) = directionKey (me w).
Proof.
  split_and!.
  - assert (H0 : facing_ok (constructor c data e)) by (by right).
    revert H0. generalize (constructor c data e).
    induction evs as [|ev evs IH]; intros v Hv; [done|].
    cbn. apply IH. unfold facing_ok.
    destruct ev as [key|key| |tq|j|]; cbn.
    + case_match; [by apply handleKeyDown_facing_ok | done].
    + case_match; [by apply handleKeyUp_facing_ok | done].
    + by rewrite (update_body_facing v).
    + by rewrite (collide_facing tq v).
    + by destruct (fireTimer_me_tables j v) as (_ & _ & ->).
    + by destruct (resumeDeath_me_tables v) as (_ & _ & ->).
  - apply update_body_facing.
  - apply collide_facing.
  - exact (proj2 (proj2 (fireTimer_me_tables i w))).
  - exact (proj2 (proj2 (resumeDeath_me_tables w))).
Qed.

(** ** The frame, beyond the jump and the clamps *)

Lemma Qleb_false (a b : Q) : Qleb a b = false ↔ b < a.
Proof.
  unfold Qleb. rewrite <- not_true_iff_false, Qle_bool_iff. split; lra.
Qed.

Lemma Qltb_true (a b : Q) : Qltb a b = true ↔ a < b.
Proof.
  unfold Qltb. rewrite negb_true_iff. apply Qleb_false.
Qed.

Lemma Qltb_false (a b : Q) : Qltb a b = false ↔ b <= a.
Proof. unfold Qltb. rewrite negb_false_iff. apply Qle_bool_iff. Qed.

(** X7. A frame that returns leaves [x] non-negative, and, on a screen
    whose tube column starts right of 1, outside the tube column
    [0.8 * width, width]. *)
Theorem frame_ends_in_bounds (w : World) :
  completion update_body w = Normal tt →
  let x' := x (me (exec update_body w)) in
  0 <= x'
  ∧ (1 < tubeX (env w) → ¬ (tubeX (env w) <= x' ∧ x' <= innerWidth (env w))).
Proof.
  unfold completion, exec. rewrite update_body_unfold.
  destruct (moveAndJump_x w) as [_ Hw]. unfold exec in Hw.
  destruct (moveAndJump w) as [[[]|] w1]; [|discriminate]. intros _. cbn in *.
  unfold leftClamp, tubeClamp, tubeX in *. rewrite Hw.
  destruct (Qleb ((4 # 5) * innerWidth (env w)) (x (me w1))) eqn:E1;
    [destruct (Qleb (x (me w1)) (innerWidth (env w))) eqn:E2|]; cbn;
    match goal with |- context [Qltb ?a 0] => destruct (Qltb a 0) eqn:E3 end; cbn;
    rewrite ?Qltb_true, ?Qltb_false, ?Qleb_false in *;
    unfold Qleb in *; rewrite ?Qle_bool_iff in *; split; lra.
Qed.

Lemma frame_ends_in_bounds_witness :
  let w := run (start 799 1000 "normal") [KeyDown "d"; KeyDown "s"] in
  let x' := x (me (exec update_body w)) in
  0 <= x'
  ∧ (1 < tubeX (env w) → ¬ (tubeX (env w) <= x' ∧ x' <= innerWidth (env w))).
Proof.
  apply (frame_ends_in_bounds
           (run (start 799 1000 "normal") [KeyDown "d"; KeyDown "s"])).
  vm_compute. reflexivity.
Defined.

Lemma clamps_trace (w : World) : trace (leftClamp (tubeClamp w)) = trace w.
Proof. unfold leftClamp, tubeClamp. by repeat case_match. Qed.

(** X8. There is no jump in mid-air: above the ground ([y < bottom]) and
    with [movement.down] permitted, a frame returns, whatever keys are
    held and whatever the descriptor table holds, leaves [y] as it was
    and plays no sound. *)
Theorem no_jump_in_mid_air (w : World) :
  y (me w) < bottom (me w) →
  down (movement (me w)) = true →
  completion update_body w = Normal tt
  ∧ y (me (exec update_body w)) = y (me w)
  ∧ trace (exec update_body w) = trace w.
Proof.
  intros Hy Hd.
  assert (Hg : grounded (me w) = false).
  { unfold grounded. rewrite Hd, orb_false_r. by apply Qleb_false. }
  unfold completion, exec.
  rewrite update_body_unfold, moveAndJump_unfold, before_jump.
  destruct (moveLateral_eq w) as (x' & -> & _).
  unfold jump, isActiveGravityAnimation, bind, read, when. cbn.
  change (grounded (set_x x' (me w))) with (grounded (me w)). rewrite Hg.
  rewrite andb_false_r. cbn.
  by rewrite clamps_y, clamps_trace.
Qed.

Lemma no_jump_in_mid_air_witness :
  let w := run (constructor (sampleCharacter 100 200 300 1) sampleData
                  (sampleEnv 1000 "normal")) [KeyDown "w"] in
  completion update_body w = Normal tt
  ∧ y (me (exec update_body w)) = y (me w)
  ∧ trace (exec update_body w) = trace w.
Proof.
  apply (no_jump_in_mid_air
           (run (constructor (sampleCharacter 100 200 300 1) sampleData
                   (sampleEnv 1000 "normal")) [KeyDown "w"])).
  - vm_compute. reflexivity.
  - reflexivity.
Defined.

Lemma outsideAnimation_position (w w' : World) :
  outsideAnimation w' = outsideAnimation w →
  x (me w') = x (me w) ∧ y (me w') = y (me w)
  ∧ env w' = env w ∧ trace w' = trace w.
Proof.
  unfold outsideAnimation.
  intros [= -> -> _ _ _ _ _ _ _ _ _ _ -> _ _ -> _]. done.
Qed.

(** X9. When the player is grounded, or on a platform, and the
    descriptor table has no descriptor for the facing, every frame raises
    a [TypeError] at the jump check: the lateral rules have moved [x],
    but neither clamp runs, no sound is played, [y] and the parallax
    speeds stay, and the generic update of the base object is never
    reached. *)
Theorem frame_raises_without_facing_descriptor (w : World) (super_update : Js unit) :
  grounded (me w) = true →
  js_get (directionKey (me w)) (playerData (me w)) = None →
  update super_update w = update_body w
  ∧ completion update_body w = TypeError
  ∧ x (me (exec update_body w)) = x (me (moveLateral w))
  ∧ y (me (exec update_body w)) = y (me w)
  ∧ parallax (exec update_body w) = parallax w
  ∧ trace (exec update_body w) = trace w.
Proof.
  intros Hg Hn.
  assert (Hc : completion (isActiveGravityAnimation "w")
                 (moveLateral (publishPosition w)) = TypeError).
  { rewrite before_jump. destruct (moveLateral_eq w) as (x' & -> & _).
    rewrite isActiveGravityAnimation_moved, isActiveGravityAnimation_completion.
    by rewrite Hg, Hn. }
  pose proof (isActiveGravityAnimation_outside "w"
                (moveLateral (publishPosition w))) as Ho.
  apply outsideAnimation_position in Ho as (Hx & Hy & He & Ht).
  assert (Hu : update_body w
               = (TypeError, exec (isActiveGravityAnimation "w")
                               (moveLateral (publishPosition w)))).
  { rewrite update_body_unfold, moveAndJump_unfold. unfold jump, bind.
    unfold completion, exec in *.
    by destruct (isActiveGravityAnimation "w" _) as [[b|] w2]. }
  assert (Hw : exec update_body w
               = exec (isActiveGravityAnimation "w")
                   (moveLateral (publishPosition w))).
  { unfold exec at 1. by rewrite Hu. }
  rewrite Hw, Hx, Hy, Ht. unfold parallax. rewrite He.
  split_and!.
  - unfold update, bind. by rewrite Hu.
  - unfold completion. by rewrite Hu.
  - rewrite before_jump. by destruct (moveLateral_eq w) as (x' & -> & _).
  - rewrite before_jump. by destruct (moveLateral_eq w) as (x' & -> & _).
  - rewrite before_jump. by destruct (moveLateral_eq w) as (x' & -> & _).
  - rewrite before_jump. by destruct (moveLateral_eq w) as (x' & -> & _).
Qed.

Lemma frame_raises_without_facing_descriptor_witness :
  let w := run (constructor (sampleCharacter 100 300 300 1)
                  (delete "d" sampleData) (sampleEnv 1000 "normal")) [KeyDown "s"] in
  update (ret tt) w = update_body w
  ∧ completion update_body w = TypeError
  ∧ x (me (exec update_body w)) = x (me (moveLateral w))
  ∧ y (me (exec update_body w)) = y (me w)
  ∧ parallax (exec update_body w) = parallax w
  ∧ trace (exec update_body w) = trace w.
Proof.
  apply (frame_raises_without_facing_descriptor
           (run (constructor (sampleCharacter 100 300 300 1)
                   (delete "d" sampleData) (sampleEnv 1000 "normal"))
                [KeyDown "s"])
           (ret tt)).
  - vm_compute. reflexivity.
  - vm_compute. reflexivity.
Defined.

Lemma jump_env : kept (fun w => env w) jump.
Proof. kept_tac. Qed.

Lemma clamps_published (w : World) :
  playerX (env (leftClamp (tubeClamp w))) = playerX (env w)
  ∧ playerY (env (leftClamp (tubeClamp w))) = playerY (env w).
Proof. unfold leftClamp, tubeClamp. by repeat case_match. Qed.

(** X10. The position a frame publishes to the environment is the one
    the player had when the frame began, not the one the frame leaves:
    it holds whether or not the frame moves, jumps, clamps or raises. *)
Theorem published_position_is_of_frame_start (w : World) :
  playerX (env (exec update_body w)) = x (me w)
  ∧ playerY (env (exec update_body w)) = y (me w).
Proof.
  unfold exec. rewrite update_body_unfold, moveAndJump_unfold.
  pose proof (jump_env (moveLateral (publishPosition w))) as He.
  unfold exec in He. rewrite before_jump in *.
  destruct (moveLateral_eq w) as (x' & Hm & _). rewrite Hm in *. cbn in He.
  destruct (jump _) as [[[]|] w2]; cbn in *.
  - destruct (clamps_published w2) as [-> ->]. by rewrite He.
  - by rewrite He.
Qed.

(** X16. With the left and the right key both active and both directions
    permitted, a frame applies both rules, the left one first: [x]
    becomes [x - v], then [(x - v) + v], with [v] the dash speed or the
    walking speed; the frame ends at that very [x] when no clamp
    fires. *)
Theorem opposite_keys_left_then_right (w : World) :
  isActiveAnimation "a" (me w) = true →
  isActiveAnimation "d" (me w) = true →
  left (movement (me w)) = true →
  right (movement (me w)) = true →
  let v := if isActiveAnimation "s" (me w) then moveSpeed (me w) else speed (me w) in
  x (me (moveLeft w)) = x (me w) - v
  ∧ x (me (moveLateral w)) = x (me w) - v + v
  ∧ (unclamped w → x (me (exec update_body w)) = x (me w) - v + v).
Proof.
  intros Ha Hd Hl Hr v.
  assert (Hx : x (me (moveLateral w)) = x (me w) - v + v).
  { rewrite moveLateral_x. cbn. unfold lateralX. by rewrite Ha, Hd, Hl, Hr. }
  split_and!; [|done|].
  - rewrite moveLeft_x. cbn. by rewrite Ha, Hl.
  - intros Hu. by rewrite (update_body_unclamped w Hu).
Qed.

Lemma opposite_keys_left_then_right_witness :
  let w := run (start 100 1000 "normal") [KeyDown "a"; KeyDown "d"; KeyDown "s"] in
  let v := if isActiveAnimation "s" (me w) then moveSpeed (me w) else speed (me w) in
  x (me (moveLeft w)) = x (me w) - v
  ∧ x (me (moveLateral w)) = x (me w) - v + v
  ∧ (unclamped w → x (me (exec update_body w)) = x (me w) - v + v).
Proof.
  apply (opposite_keys_left_then_right
           (run (start 100 1000 "normal") [KeyDown "a"; KeyDown "d"; KeyDown "s"]));
    reflexivity.
Defined.

(** ** The collision reactor, beyond the enemy and the platform *)

Lemma tubeReaction_env (w : World) : env (tubeReaction w) = env w.
Proof. unfold tubeReaction, permitLateral. by repeat case_match. Qed.

(** A tube contact: the tube block runs, then the edge rule. *)
Lemma collide_tube (tp : TouchPoints) (w : World) :
  other_id (other tp) = "tube" →
  collide tp w
  = (Normal tt, fallOffEdge (tubeReaction (with_me (set_collisionData tp) w))).
Proof.
  intros Hid. rewrite collide_unfold. unfold bind.
  destruct (tubeReaction_down (with_me (set_collisionData tp) w)) as [Ht _].
  rewrite enemyReaction_other by (by rewrite Ht; cbn; rewrite Hid).
  rewrite platformReaction_off by (by rewrite Ht; cbn; rewrite Hid).
  done.
Qed.

(** The timer scheduled last fires. *)
Lemma fireTimer_last (l : list Timer) (t : Timer) (w : World) :
  timers w = (l ++ [t])%list →
  fireTimer (length l) w
  = runTask (task t)
      (mkWorld (me w) (env w) l (awaiting w) (trace w) (listening w)).
Proof.
  intros H. unfold fireTimer. rewrite H.
  rewrite (list_lookup_middle l [] t (length l)) by done.
  rewrite take_app_length, drop_ge, app_nil_r; [done|].
  rewrite length_app. cbn. lia.
Qed.

(** X11. Entering a tube from above starts a sequence of two timers of
    one second each: the contact pins [x] to the tube and schedules the
    first; when it fires, gravity is enabled and the second is scheduled;
    when that one fires, [x] is one past the right edge of the screen and
    the queue is as it was before the contact. *)
Theorem tube_entry_sequence (w : World) (tp : TouchPoints) :
  other_id (other tp) = "tube" →
  other_bottom (other tp) = true →
  let n := length (timers w) in
  let w1 := exec (collide tp) w in
  let w2 := fireTimer n w1 in
  let w3 := fireTimer n w2 in
  (x (me w1) = other_x (other tp)
   ∧ timers w1 = (timers w ++ [mkTimer 1000 TubeGravityOn])%list)
  ∧ (gravityEnabled (me w2) = true
     ∧ x (me w2) = other_x (other tp)
     ∧ timers w2 = (timers w ++ [mkTimer 1000 TubeExit])%list)
  ∧ (x (me w3) = innerWidth (env w) + 1
     ∧ timers w3 = timers w).
Proof.
  intros Hid Hb. cbv zeta. unfold exec. rewrite collide_tube by done. cbn.
  set (w1 := fallOffEdge (tubeReaction (with_me (set_collisionData tp) w))).
  assert (H1 : x (me w1) = other_x (other tp)
               ∧ timers w1 = (timers w ++ [mkTimer 1000 TubeGravityOn])%list
               ∧ env w1 = env w).
  { subst w1. unfold fallOffEdge, tubeReaction, touch. cbn. rewrite Hid, Hb. cbn.
    by repeat (case_match; cbn). }
  destruct H1 as (Hx1 & Ht1 & He1).
  rewrite (fireTimer_last _ _ _ Ht1). cbn.
  set (w2 := setTimeout TubeExit 1000 _).
  assert (Ht2 : timers w2 = (timers w ++ [mkTimer 1000 TubeExit])%list) by done.
  rewrite (fireTimer_last _ _ _ Ht2). cbn.
  by rewrite He1.
Qed.

Lemma tube_entry_sequence_witness :
  let w := run (start 700 1000 "normal")
             [Collision (contact "goomba" true false false false)] in
  let tp := mkTouchPoints (mkOtherTouch "tube" false false false true 810)
                          (mkThisTouch false true false false) in
  let n := length (timers w) in
  let w1 := exec (collide tp) w in
  let w2 := fireTimer n w1 in
  let w3 := fireTimer n w2 in
  (x (me w1) = other_x (other tp)
   ∧ timers w1 = (timers w ++ [mkTimer 1000 TubeGravityOn])%list)
  ∧ (gravityEnabled (me w2) = true
     ∧ x (me w2) = other_x (other tp)
     ∧ timers w2 = (timers w ++ [mkTimer 1000 TubeExit])%list)
  ∧ (x (me w3) = innerWidth (env w) + 1
     ∧ timers w3 = timers w).
Proof.
  apply (tube_entry_sequence
           (run (start 700 1000 "normal")
              [Collision (contact "goomba" true false false false)])
           (mkTouchPoints (mkOtherTouch "tube" false false false true 810)
              (mkThisTouch false true false false)));
    reflexivity.
Defined.

(** X12. Entering a tube from above stops gravity only when
    [movement.down] was permitted: for a player standing on a jump
    platform, the edge rule of the third block runs in the same call,
    permits [movement.down] and enables gravity again. *)
Theorem tube_entry_gravity (w : World) (tp : TouchPoints) :
  other_id (other tp) = "tube" →
  other_bottom (other tp) = true →
  let w' := exec (collide tp) w in
  gravityEnabled (me w') = negb (down (movement (me w)))
  ∧ down (movement (me w')) = true.
Proof.
  intros Hid Hb. cbv zeta. unfold exec. rewrite collide_tube by done. cbn.
  unfold fallOffEdge, tubeReaction, touch. cbn. rewrite Hid, Hb. cbn.
  destruct (other_left (other tp)), (other_right (other tp)); cbn.
  all: destruct (down (movement (me w))) eqn:Hd; cbn; by rewrite ?Hd.
Qed.

Lemma tube_entry_gravity_witness :
  let w := run (start 700 1000 "normal")
             [Collision (contact "jumpPlatform" false false false true)] in
  let tp := contact "tube" false false true false in
  let w' := exec (collide tp) w in
  gravityEnabled (me w') = negb (down (movement (me w)))
  ∧ down (movement (me w')) = true.
Proof.
  apply (tube_entry_gravity
           (run (start 700 1000 "normal")
              [Collision (contact "jumpPlatform" false false false true)])
           (contact "tube" false false true false));
    reflexivity.
Defined.

(** *** The lateral permissions *)

Lemma enemyReaction_movement :
  kept (fun w => (touch w, movement (me w))) enemyReaction.
Proof. kept_tac. Qed.

Lemma tubeReaction_lateral (w : World) :
  touch (tubeReaction w) = touch w
  ∧ right (movement (me (tubeReaction w)))
    = (if String.eqb (other_id (other (touch w))) "tube"
       then right (movement (me w)) && negb (other_left (other (touch w)))
       else true)
  ∧ left (movement (me (tubeReaction w)))
    = (if String.eqb (other_id (other (touch w))) "tube"
       then left (movement (me w)) && negb (other_right (other (touch w)))
       else true).
Proof.
  unfold tubeReaction, permitLateral, touch.
  destruct (String.eqb _ "tube"); [|done].
  destruct (other_left _), (other_right _), (other_bottom _); cbn;
    by rewrite ?andb_true_r, ?andb_false_r.
Qed.

Lemma platformReaction_lateral (w : World) :
  let w' := exec platformReaction w in
  let jp := String.eqb (other_id (other (touch w))) "jumpPlatform" in
  right (movement (me w'))
  = right (movement (me w)) && negb (jp && other_left (other (touch w)))
  ∧ left (movement (me w'))
    = left (movement (me w)) && negb (jp && other_right (other (touch w))).
Proof.
  cbv zeta. destruct (String.eqb _ "jumpPlatform") eqn:Hid.
  - unfold platformReaction, exec, bind, read, when, act. cbn. rewrite Hid. cbn.
    destruct (other_left _), (other_right _), (this_top _); cbn;
      try match goal with
        | |- context [setAnimation ?k ?W] =>
            destruct (setAnimation_standing k W) as [-> _]
        end; cbn; by rewrite ?andb_true_r, ?andb_false_r.
  - unfold exec. rewrite platformReaction_off by done. cbn.
    unfold fallOffEdge. case_match; cbn; by rewrite !andb_true_r.
Qed.

(** X13. The lateral permissions after a collision. A tube contact only
    withdraws them: rightward movement when the tube's left face is
    touched, leftward movement when its right face is. Any other contact
    grants both again, whatever they were, except that a jump platform
    withdraws the one towards its touched face. *)
Theorem lateral_permissions_after_collision (w : World) (tp : TouchPoints) :
  let w' := exec (collide tp) w in
  let o := other tp in
  let jp := String.eqb (other_id o) "jumpPlatform" in
  right (movement (me w'))
  = (if String.eqb (other_id o) "tube"
     then right (movement (me w)) && negb (other_left o)
     else negb (jp && other_left o))
  ∧ left (movement (me w'))
    = (if String.eqb (other_id o) "tube"
       then left (movement (me w)) && negb (other_right o)
       else negb (jp && other_right o)).
Proof.
  cbv zeta. rewrite collide_exec.
  set (w0 := with_me (set_collisionData tp) w).
  destruct (tubeReaction_lateral w0) as (Ht & Hr & Hl).
  destruct (pair_eq_inv _ _ _ _ (enemyReaction_movement (tubeReaction w0)))
    as [Ht' Hm].
  destruct (platformReaction_lateral (exec enemyReaction (tubeReaction w0)))
    as [Hr' Hl'].
  rewrite Hr', Hl', Ht', Hm, Hr, Hl, Ht. subst w0. cbn.
  destruct (String.eqb_spec (other_id (other tp)) "tube") as [->|Hne]; cbn.
  - by rewrite !andb_true_r.
  - done.
Qed.

(** *** A tube blocks *)

Lemma lateral_permissions_tube (w : World) (tp : TouchPoints) :
  other_id (other tp) = "tube" →
  right (movement (me (exec (collide tp) w)))
  = right (movement (me w)) && negb (other_left (other tp))
  ∧ left (movement (me (exec (collide tp) w)))
    = left (movement (me w)) && negb (other_right (other tp)).
Proof.
  intros Hid. unfold exec. rewrite collide_tube by done. cbn.
  destruct (tubeReaction_lateral (with_me (set_collisionData tp) w))
    as (_ & Hr & Hl).
  cbn in Hr, Hl. rewrite Hid in Hr, Hl. cbn in Hr, Hl.
  unfold fallOffEdge. case_match; cbn; by rewrite Hr, Hl.
Qed.

Lemma handleKeyDown_physics key : kept physics (handleKeyDown key).
Proof. kept_tac. Qed.

Lemma handleKeyUp_physics key : kept physics (handleKeyUp key).
Proof. kept_tac. Qed.

Lemma physics_movement (w w' : World) :
  physics w' = physics w → movement (me w') = movement (me w).
Proof. unfold physics. by intros [= _ _ _ _ _ -> _ _ _ _ _]. Qed.

Lemma frameFixed_movement (w w' : World) :
  frameFixed w' = frameFixed w → movement (me w') = movement (me w).
Proof. unfold frameFixed. by intros [= _ _ _ -> _ _ _ _ _ _ _ _ _ _ _]. Qed.

Lemma keyOrFrame_movement (w : World) (evs : list Event) :
  Forall keyOrFrame evs → movement (me (run w evs)) = movement (me w).
Proof.
  revert w. induction evs as [|ev evs IH]; intros w Hall; [done|].
  apply Forall_cons in Hall as [Hev Hall]. cbn. fold (run (step w ev) evs).
  rewrite (IH _ Hall). destruct ev as [key|key| | | |]; cbn in *; try done.
  - case_match; [|done]. apply physics_movement, handleKeyDown_physics.
  - case_match; [|done]. apply physics_movement, handleKeyUp_physics.
  - apply frameFixed_movement, update_body_frameFixed.
Qed.

(** X18. After a contact with the right face of a tube, leftward
    movement stays withdrawn through any key events and frames, and in
    such a world the lateral rules move nothing unless the right key is
    active: the left key, alone or with the dash, does not pass the
    tube. *)
Theorem tube_blocks_the_way_back (w : World) (tp : TouchPoints) (evs : list Event) :
  other_id (other tp) = "tube" →
  other_right (other tp) = true →
  Forall keyOrFrame evs →
  let v := run (exec (collide tp) w) evs in
  left (movement (me v)) = false
  ∧ (isActiveAnimation "d" (me v) = false → moveLateral v = v).
Proof.
  intros Hid Hr Hall. cbv zeta.
  assert (Hl : left (movement (me (run (exec (collide tp) w) evs))) = false).
  { rewrite (keyOrFrame_movement _ _ Hall).
    destruct (lateral_permissions_tube w tp Hid) as [_ ->].
    rewrite Hr. apply andb_false_r. }
  split; [done|]. intros Hd.
  unfold moveLateral, moveLeft. rewrite Hl.
  destruct (isActiveAnimation "a" _); unfold moveRight; by rewrite Hd.
Qed.

Lemma tube_blocks_the_way_back_witness :
  let w := start 790 1000 "normal" in
  let tp := contact "tube" false true false false in
  let evs := [KeyDown "a"; KeyDown "s"; Frame; Frame] in
  let v := run (exec (collide tp) w) evs in
  left (movement (me v)) = false
  ∧ (isActiveAnimation "d" (me v) = false → moveLateral v = v).
Proof.
  apply (tube_blocks_the_way_back (start 790 1000 "normal")
           (contact "tube" false true false false)
           [KeyDown "a"; KeyDown "s"; Frame; Frame]).
  - reflexivity.
  - reflexivity.
  - repeat constructor.
Defined.

(** *** Easy difficulty *)

Lemma collide_easy_isDying (tp : TouchPoints) (w : World) :
  difficulty (env w) = "easy" →
  isDying (me (exec (collide tp) w)) = isDying (me w)
  ∧ style_transform (canvas (me (exec (collide tp) w)))
    = style_transform (canvas (me w)).
Proof.
  intros Hd. rewrite collide_exec.
  set (w0 := tubeReaction (with_me (set_collisionData tp) w)).
  assert (He : difficulty (env w0) = "easy").
  { subst w0. by rewrite tubeReaction_env. }
  assert (H0 : isDying (me w0) = isDying (me w)
               ∧ style_transform (canvas (me w0)) = style_transform (canvas (me w))).
  { subst w0. unfold tubeReaction, permitLateral. by repeat case_match. }
  assert (H1 : isDying (me (exec enemyReaction w0)) = isDying (me w0)
               ∧ style_transform (canvas (me (exec enemyReaction w0)))
                 = style_transform (canvas (me w0))).
  { unfold exec. destruct (isEnemy (other_id (other (touch w0)))) eqn:E.
    - by rewrite enemyReaction_easy.
    - by rewrite enemyReaction_other. }
  assert (Hp : kept (fun w => (isDying (me w), style_transform (canvas (me w))))
                 platformReaction) by kept_tac.
  destruct (pair_eq_inv _ _ _ _ (Hp (exec enemyReaction w0))) as [-> ->].
  destruct H0 as [<- <-]. exact H1.
Qed.

Lemma fireTimer_canvas (i : nat) (w : World) :
  canvas (me (fireTimer i w)) = canvas (me w).
Proof.
  unfold fireTimer. by destruct (timers w !! i) as [[ms []]|].
Qed.

Lemma step_easy (w : World) (ev : Event) :
  difficulty (env w) = "easy" →
  isDying (me w) = false →
  isDying (me (step w ev)) = false
  ∧ style_transform (canvas (me (step w ev))) = style_transform (canvas (me w)).
Proof.
  intros Hd Hy. destruct ev as [key|key| |tp|i|]; cbn.
  - case_match; [|done].
    assert (Hk : kept (fun w => (isDying (me w), style_transform (canvas (me w))))
                   (handleKeyDown key)) by kept_tac.
    destruct (pair_eq_inv _ _ _ _ (Hk w)) as [-> ->]. done.
  - case_match; [|done].
    assert (Hk : kept (fun w => (isDying (me w), style_transform (canvas (me w))))
                   (handleKeyUp key)) by kept_tac.
    destruct (pair_eq_inv _ _ _ _ (Hk w)) as [-> ->]. done.
  - assert (Hk : kept (fun w => (isDying (me w), style_transform (canvas (me w))))
                   update_body) by kept_tac.
    destruct (pair_eq_inv _ _ _ _ (Hk w)) as [-> ->]. done.
  - destruct (collide_easy_isDying tp w Hd) as [-> ->]. done.
  - by rewrite fireTimer_isDying, fireTimer_canvas.
  - unfold resumeDeath. by case_match.
Qed.

(** X14. On easy the player cannot die: from its construction on,
    whatever the host loop delivers, [isDying] is false, no restart is
    scheduled or running, and the death transform is never written. *)
Theorem easy_is_never_lethal (c : Character)
    (data : gmap string (option Animation)) (e : GameEnv) (evs : list Event) :
  difficulty e = "easy" →
  let w := run (constructor c data e) evs in
  alive w
  ∧ style_transform (canvas (me w)) = style_transform (c_canvas c).
Proof.
  intros Hd. cbv zeta.
  assert (H : isDying (me (run (constructor c data e) evs)) = false
              ∧ style_transform (canvas (me (run (constructor c data e) evs)))
                = style_transform (c_canvas c)).
  { assert (H0 : isDying (me (constructor c data e)) = false
                 ∧ style_transform (canvas (me (constructor c data e)))
                   = style_transform (c_canvas c)) by done.
    assert (Hd0 : difficulty (env (constructor c data e)) = "easy") by done.
    revert H0 Hd0. generalize (constructor c data e).
    induction evs as [|ev evs IH]; intros w [Hy Ht] Hw; [done|].
    change (run w (ev :: evs)) with (run (step w ev) evs). apply IH.
    - destruct (step_easy w ev Hw Hy) as [Hy' Ht']. by rewrite Ht'.
    - by rewrite step_difficulty. }
  destruct H as [Hy Ht]. split; [|done].
  assert (Hinv : dying_inv (run (constructor c data e) evs))
    by apply run_dying_inv, constructor_dying_inv.
  unfold alive, dying_inv in *. rewrite Hy in Hinv. split_and!; [done|lia|lia].
Qed.

Lemma easy_is_never_lethal_witness :
  let w := run (constructor (sampleCharacter 100 300 300 1) sampleData
                  (sampleEnv 1000 "easy"))
             [Collision (contact "goomba" true false false false); Frame;
              Collision (contact "flyingGoomba" false true false false);
              TimerFires 0; TransitionCompletes] in
  alive w
  ∧ style_transform (canvas (me w))
    = style_transform (c_canvas (sampleCharacter 100 300 300 1)).
Proof.
  apply (easy_is_never_lethal (sampleCharacter 100 300 300 1) sampleData
           (sampleEnv 1000 "easy")
           [Collision (contact "goomba" true false false false); Frame;
            Collision (contact "flyingGoomba" false true false false);
            TimerFires 0; TransitionCompletes]).
  reflexivity.
Defined.

(** *** The level the restart asks for *)

Lemma indexOf_spec (l : list Level) (v : Level) :
  match indexOf l v with
  | Some i => l !! i = Some v
  | None => v ∉ l
  end.
Proof.
  induction l as [|h t IH]; cbn.
  - apply not_elem_of_nil.
  - destruct (Nat.eqb_spec h v) as [->|Hne]; [done|].
    destruct (indexOf t v) as [i|]; [done|].
    rewrite not_elem_of_cons. split; [congruence|done].
Qed.

(** X15. The death callback asks the level transition for the current
    level itself when it is one of the levels, and for [undefined] when
    it is not; it never asks for another level. *)
Theorem restart_asks_for_current_level (w : World) :
  trace (runTask RestartLevel w)
  = (trace w
     ++ [TransitionToLevel
           (if bool_decide (currentLevel (env w) ∈ levels (env w))
            then Some (currentLevel (env w)) else None)])%list
  ∧ awaiting (runTask RestartLevel w) = S (awaiting w)
  ∧ isDying (me (runTask RestartLevel w)) = isDying (me w).
Proof.
  split_and!; try done. cbn. f_equal. f_equal. f_equal. unfold restartTarget.
  pose proof (indexOf_spec (levels (env w)) (currentLevel (env w))) as H.
  destruct (indexOf _ _) as [i|].
  - rewrite bool_decide_eq_true_2; [done|]. by eapply list_elem_of_lookup_2.
  - by rewrite bool_decide_eq_false_2.
Qed.

(** *** What each entry point never writes *)

(** X17. The key handlers never move the player and never touch the
    physics: position, speeds, permissions, gravity, the death sequence,
    the timers and the calls to collaborators are after a key-down or a
    key-up, for any key, what they were before, also when the handler
    raises. *)
Theorem key_handlers_keep_physics (key : string) (w : World) :
  physics (exec (handleKeyDown key) w) = physics w
  ∧ physics (exec (handleKeyUp key) w) = physics w.
Proof.
  assert (Hd : kept physics (handleKeyDown key)) by kept_tac.
  assert (Hu : kept physics (handleKeyUp key)) by kept_tac.
  split; [apply Hd | apply Hu].
Qed.

(** X19. The collision reactor never writes the height, the speeds, the
    latched keys, idleness, the dash filter, the parallax speeds, or the
    published position: after any collision they are what they were
    before, also when the reactor raises. *)
Theorem collisions_keep_inputs (tp : TouchPoints) (w : World) :
  inputs (exec (collide tp) w) = inputs w
  ∧ directionKey (me (exec (collide tp) w)) = directionKey (me w).
Proof.
  assert (Hi : kept inputs (collide tp)) by kept_tac.
  assert (Hf : kept (fun w => directionKey (me w)) (collide tp)) by facing_tac.
  split; [apply Hi | apply Hf].
Qed.

(** X20. A frame never writes the permissions, gravity, the latched keys,
    idleness, the canvas, the death sequence, the invincibility flag or
    the timers: after the player's part of [update()] they are what they
    were before, whether it returns or raises. *)
Theorem frames_keep_flags (w : World) :
  frameFixed (exec update_body w) = frameFixed w
  ∧ directionKey (me (exec update_body w)) = directionKey (me w).
Proof.
  assert (Hi : kept frameFixed update_body) by kept_tac.
  assert (Hf : kept (fun w => directionKey (me w)) update_body) by facing_tac.
  split; [apply Hi | apply Hf].
Qed.

(** *** The left edge *)

(** X21. A frame that returns and whose lateral rules take [x] below 0
    ends with [x = 1] and both parallax speeds at 0, whatever the width
    of the screen: the tube clamp cannot fire on a negative [x]. *)
Theorem left_edge_stops_the_scroll (w : World) :
  completion update_body w = Normal tt →
  x (me (moveLateral w)) < 0 →
  x (me (exec update_body w)) = 1
  ∧ parallax (exec update_body w) = (0, 0).
Proof.
  unfold completion, exec. rewrite update_body_unfold.
  destruct (moveAndJump_x w) as [Hx Hw]. unfold exec in Hx, Hw.
  destruct (moveAndJump w) as [[[]|] w1]; [|discriminate]. intros _ Hneg.
  cbn in *. rewrite <- Hx in Hneg.
  assert (Ht : tubeClamp w1 = w1).
  { unfold tubeClamp, tubeX. rewrite Hw.
    destruct (Qleb ((4 # 5) * innerWidth (env w)) (x (me w1))) eqn:E1; [|done].
    destruct (Qleb (x (me w1)) (innerWidth (env w))) eqn:E2; [|done].
    unfold Qleb in *. apply Qle_bool_iff in E1, E2. lra. }
  rewrite Ht. unfold leftClamp.
  apply Qltb_true in Hneg. by rewrite Hneg.
Qed.

Lemma left_edge_stops_the_scroll_witness :
  let w := run (start 3 1000 "normal") [KeyDown "a"; KeyDown "s"; Frame] in
  x (me (exec update_body w)) = 1
  ∧ parallax (exec update_body w) = (0, 0).
Proof.
  apply (left_edge_stops_the_scroll
           (run (start 3 1000 "normal") [KeyDown "a"; KeyDown "s"; Frame]));
    reflexivity.
Defined.

(** *** The jump platform, face by face *)

Lemma collide_platform (tp : TouchPoints) (w : World) :
  other_id (other tp) = "jumpPlatform" →
  exec (collide tp) w
  = exec platformReaction (permitLateral (with_me (set_collisionData tp) w)).
Proof.
  intros Hid. rewrite collide_exec.
  rewrite tubeReaction_not_tube by (cbn; by rewrite Hid).
  f_equal. unfold exec. by rewrite enemyReaction_other by (cbn; by rewrite Hid).
Qed.

Lemma platformReaction_flags (w : World) :
  other_id (other (touch w)) = "jumpPlatform" →
  let w' := exec platformReaction w in
  gravityEnabled (me w')
  = (if this_top (this (touch w)) then false
     else other_left (other (touch w)) || other_right (other (touch w))
          || gravityEnabled (me w))
  ∧ down (movement (me w'))
    = (if this_top (this (touch w)) then false else down (movement (me w))).
Proof.
  intros Hid. cbv zeta.
  unfold platformReaction, exec, bind, read, when, act. cbn. rewrite Hid. cbn.
  destruct (other_left _), (other_right _), (this_top _); cbn;
    try match goal with
      | |- context [setAnimation ?k ?W] =>
          destruct (setAnimation_standing k W) as [-> ->]
      end; cbn; done.
Qed.

(** X22. On a jump platform the player's top face wins: with it touched,
    gravity is off and [movement.down] withdrawn whatever the side faces
    say; without it, a touched side face of the platform enables
    gravity, and a contact with no face touched leaves gravity as it
    was; [movement.down] is then left as it was. *)
Theorem platform_contact_flags (w : World) (tp : TouchPoints) :
  other_id (other tp) = "jumpPlatform" →
  let w' := exec (collide tp) w in
  gravityEnabled (me w')
  = (if this_top (this tp) then false
     else other_left (other tp) || other_right (other tp) || gravityEnabled (me w))
  ∧ down (movement (me w'))
    = (if this_top (this tp) then false else down (movement (me w))).
Proof.
  intros Hid. cbv zeta. rewrite collide_platform by done.
  by destruct (platformReaction_flags
                 (permitLateral (with_me (set_collisionData tp) w)) Hid)
    as [-> ->].
Qed.

Lemma platform_contact_flags_witness :
  let w := start 100 1000 "normal" in
  let tp := contact "jumpPlatform" true false false true in
  let w' := exec (collide tp) w in
  gravityEnabled (me w')
  = (if this_top (this tp) then false
     else other_left (other tp) || other_right (other tp) || gravityEnabled (me w))
  ∧ down (movement (me w'))
    = (if this_top (this tp) then false else down (movement (me w))).
Proof.
  apply (platform_contact_flags (start 100 1000 "normal")
           (contact "jumpPlatform" true false false true)).
  reflexivity.
Defined.

(** *** The jump has no cooldown *)

(** The table after the jump check. *)
Lemma isActiveGravityAnimation_table (key : string) (w : World) :
  playerData (me (exec (isActiveGravityAnimation key) w))
  = if grounded (me w)
    then tableAfter (directionKey (me w)) (playerData (me w))
    else playerData (me w).
Proof.
  unfold isActiveGravityAnimation, exec, bind, read, when. cbn.
  destruct (grounded (me w)); cbn; [|done].
  destruct (setAnimation_facing (directionKey (me w)) w) as [_ Ht].
  unfold exec in Ht. by destruct (setAnimation _ w) as [[[]|] w'].
Qed.

(** A frame in which the jump check fires: the world it leaves. *)
Lemma jump_fires_world (w : World) :
  jumpFires w →
  trace (exec update_body w) = (trace w ++ [PlayJump])%list
  ∧ playerData (me (exec update_body w))
    = tableAfter (directionKey (me w)) (playerData (me w)).
Proof.
  intros Hf.
  assert (Hg : grounded (me w) = true).
  { unfold jumpFires in Hf. rewrite isActiveGravityAnimation_completion in Hf.
    by destruct (grounded (me w)). }
  unfold exec. rewrite update_body_unfold, moveAndJump_unfold, before_jump.
  destruct (moveLateral_eq w) as (x' & -> & _).
  set (w1 := with_env _ (with_me (set_x x') w)).
  unfold jumpFires in Hf.
  rewrite <- (isActiveGravityAnimation_moved "w"
                (set_PlayerPosition (x (me w)) (y (me w))) x' w) in Hf.
  fold w1 in Hf.
  pose proof (isActiveGravityAnimation_outside "w" w1) as Ho.
  apply outsideAnimation_position in Ho as (_ & _ & _ & Ht).
  pose proof (isActiveGravityAnimation_table "w" w1) as Hp.
  change (grounded (me w1)) with (grounded (me w)) in Hp. rewrite Hg in Hp.
  unfold jump, bind, completion, exec in *.
  destruct (isActiveGravityAnimation "w" w1) as [[fired|] w2]; [|discriminate].
  cbn in Hf. injection Hf as ->. cbn in *.
  rewrite clamps_trace.
  assert (Hc : playerData (me (leftClamp (tubeClamp (jumpImpulse (emit PlayJump w2)))))
               = playerData (me w2)).
  { unfold leftClamp, tubeClamp, jumpImpulse. by repeat (case_match; cbn). }
  rewrite Hc, Hp. split; [|done].
  unfold jumpImpulse. repeat (case_match; cbn); by rewrite Ht.
Qed.

Lemma frameFixed_jump (w w' : World) :
  frameFixed w' = frameFixed w →
  bottom (me w') = bottom (me w)
  ∧ movement (me w') = movement (me w)
  ∧ gravityEnabled (me w') = gravityEnabled (me w)
  ∧ pressedKeys (me w') = pressedKeys (me w)
  ∧ isIdle (me w') = isIdle (me w).
Proof.
  unfold frameFixed.
  by intros [= -> _ _ -> -> -> -> _ _ _ _ _ _ _ _].
Qed.

(** On a platform a firing jump check fires again in the next frame. *)
Lemma jumpFires_again (w : World) :
  jumpFires w → down (movement (me w)) = false → jumpFires (exec update_body w).
Proof.
  intros Hf Hd.
  destruct (jump_fires_world w Hf) as [_ Hp].
  destruct (frameFixed_jump _ _ (update_body_frameFixed w))
    as (_ & Hm & _ & Hk & Hi).
  pose proof (update_body_facing w) as Hdk. cbn in Hdk.
  apply jumpFires_iff in Hf as (H1 & H2 & _ & H4).
  apply jumpFires_iff. rewrite Hk, Hi, Hm, Hdk, Hp, tableAfter_get.
  split_and!; auto.
Qed.

(** X23. The jump has no cooldown. On a jump platform ([movement.down]
    withdrawn, gravity off) with the jump check firing, it fires again in
    every following frame, as long as nothing but frames happens: after
    [n] frames the assignment [y := y - bottom * 0.15] has been made [n]
    times, with [bottom] unchanged, and the jump sound has been played
    [n] times. *)
Theorem platform_jump_repeats (w : World) (n : nat) :
  jumpFires w →
  gravityEnabled (me w) = false →
  down (movement (me w)) = false →
  let w' := run w (replicate n Frame) in
  y (me w') = Nat.iter n (fun v => v - bottom (me w) * (3 # 20)) (y (me w))
  ∧ bottom (me w') = bottom (me w)
  ∧ trace w' = (trace w ++ replicate n PlayJump)%list
  ∧ jumpFires w'.
Proof.
  revert w. induction n as [|n IH]; intros w Hf Hg Hd.
  - cbn. rewrite app_nil_r. by split_and!.
  - change (run w (replicate (S n) Frame))
      with (run (exec update_body w) (replicate n Frame)).
    destruct (frameFixed_jump _ _ (update_body_frameFixed w))
      as (Hb & Hm & Hgr & _ & _).
    destruct (jump_fires_world w Hf) as [Ht _].
    pose proof (jump_fires w Hf) as Hy. rewrite Hg, Hd in Hy. cbn in Hy.
    destruct (IH (exec update_body w)) as (IHy & IHb & IHt & IHf).
    + by apply jumpFires_again.
    + by rewrite Hgr.
    + by rewrite Hm.
    + cbv zeta. split_and!; [| |  |done].
      * rewrite IHy, Hy, Hb. by rewrite Nat.iter_succ_r.
      * by rewrite IHb.
      * rewrite IHt, Ht, <- app_assoc. done.
Qed.

Lemma platform_jump_repeats_witness :
  let w := run (start 100 1000 "normal")
             [Collision (contact "jumpPlatform" false false false true);
              KeyDown "w"] in
  let w' := run w (replicate 3 Frame) in
  y (me w') = Nat.iter 3 (fun v => v - bottom (me w) * (3 # 20)) (y (me w))
  ∧ bottom (me w') = bottom (me w)
  ∧ trace w' = (trace w ++ replicate 3 PlayJump)%list
  ∧ jumpFires w'.
Proof.
  apply (platform_jump_repeats
           (run (start 100 1000 "normal")
              [Collision (contact "jumpPlatform" false false false true);
               KeyDown "w"]) 3);
    reflexivity.
Defined.

(** *** An entry bound to [undefined] *)

(** A first press of a key whose own entry in the table is [undefined]:
    the key is latched, bound to [undefined], and the handler raises
    before the player becomes active. *)
Lemma handleKeyDown_undefined (key : string) (w : World) :
  js_has key (playerData (me w)) = true →
  js_get key (playerData (me w)) = None →
  js_has key (pressedKeys (me w)) = false →
  completion (handleKeyDown key) w = TypeError
  ∧ pressedKeys (me (exec (handleKeyDown key) w))
    = <[key := None]> (pressedKeys (me w))
  ∧ isIdle (me (exec (handleKeyDown key) w)) = isIdle (me w)
  ∧ env (exec (handleKeyDown key) w) = env w.
Proof.
  intros Hk Hg Hl. unfold completion, exec, handleKeyDown, bind, read, when, act.
  cbn. rewrite Hk, Hl. cbn.
  match goal with
  | |- context [setAnimation ?k ?W] =>
      pose proof (setAnimation_raises k W Hg) as Hr;
      pose proof (setAnimation_outside k W) as Ho;
      destruct (outsideAnimation_keys _ _ Ho) as [Hp Hi];
      apply outsideAnimation_position in Ho as (_ & _ & He & _);
      unfold completion, exec in *;
      destruct (setAnimation k W) as [[[]|] w']
  end; [discriminate|]. cbn in *. rewrite Hg in Hp. by rewrite Hp, Hi, He.
Qed.

(** X24. Facing left on a table without the left variant ["wa"] of the
    jump erases the jump's descriptor: the left press binds the entry
    ["w"] to [undefined], and the next first press of the jump key
    latches it bound to [undefined] and raises a [TypeError]. *)
Theorem left_press_erases_jump_descriptor (w : World) (a : Animation) :
  js_get "a" (playerData (me w)) = Some a →
  js_get "wa" (playerData (me w)) = None →
  js_has "a" (pressedKeys (me w)) = false →
  js_has "w" (pressedKeys (me w)) = false →
  let w1 := exec (handleKeyDown "a") w in
  let w2 := exec (handleKeyDown "w") w1 in
  playerData (me w1) !! "w" = Some None
  ∧ completion (handleKeyDown "w") w1 = TypeError
  ∧ pressedKeys (me w2) !! "w" = Some None
  ∧ parallax w2 = parallax w1.
Proof.
  intros Ha Hwa Hla Hlw. cbv zeta.
  destruct (handleKeyDown_keys "a" w a Ha) as (_ & Hp & _ & _ & Ht).
  rewrite Hla in Hp, Ht. unfold tableAfter in Ht. cbn in Ht. rewrite Hwa in Ht.
  assert (H1 : playerData (me (exec (handleKeyDown "a") w)) !! "w" = Some None).
  { rewrite Ht. apply lookup_insert_eq. }
  destruct (handleKeyDown_undefined "w" (exec (handleKeyDown "a") w))
    as (Hc & Hp2 & _ & He).
  - unfold js_has. by rewrite H1.
  - unfold js_get. by rewrite H1.
  - rewrite Hp. unfold js_has. by rewrite lookup_insert_ne.
  - split_and!; [done|done| |].
    + rewrite Hp2. apply lookup_insert_eq.
    + unfold parallax. by rewrite He.
Qed.

Lemma left_press_erases_jump_descriptor_witness :
  let w := constructor (sampleCharacter 100 300 300 1) (delete "wa" sampleData)
             (sampleEnv 1000 "normal") in
  let w1 := exec (handleKeyDown "a") w in
  let w2 := exec (handleKeyDown "w") w1 in
  playerData (me w1) !! "w" = Some None
  ∧ completion (handleKeyDown "w") w1 = TypeError
  ∧ pressedKeys (me w2) !! "w" = Some None
  ∧ parallax w2 = parallax w1.
Proof.
  apply (left_press_erases_jump_descriptor
           (constructor (sampleCharacter 100 300 300 1) (delete "wa" sampleData)
              (sampleEnv 1000 "normal"))
           (mkAnimation 1 15 (Some (mkIdleFrame 7 0))));
    vm_compute; reflexivity.
Defined.

